(** * Multistream dispatch worker: a shallow embedding of [streaming-worker.js]

    The worker keeps a registry of running relay processes ([activeStreams], a
    JavaScript [Map]), builds one ffmpeg command line per stream, and reacts to
    four kinds of events: start requests, stop requests, the exit of a child
    process, and the termination signal of the worker itself.

    Modelling choices, all taken from the source:
    - strings are [string]; a field of an object read from JSON is a
      [jsval]: absent, [null], a string, a boolean, a number, or an object
      or array;
    - the [Map] is an insertion-ordered association list with the [Map]
      operations [has], [get], [set], [delete];
    - every effect on the outside world (file opened, process spawned, signal
      sent, log stream closed, SQL [UPDATE] issued, worker exit) is appended to
      a trace, in the order in which the code performs it;
    - an [async] function is cut at its [await]s into segments that run
      atomically (JavaScript is single threaded); the function itself is the
      composition of its segments, i.e. its run when no other handler is
      scheduled in between;
    - [pgClient.query] is taken to succeed: the UPDATE is recorded when it is
      issued (one connection executes its queries in issue order);
    - the end of a child's output streams and its ['exit'] event are separate
      events: the two pipes into the log stream end it at end of file, the
      exit handler at the exit;
    - each [new Date()] is a reading of its own: within one run of
      synchronous code the next reading is [nextDate] of the one before;
    - the [for ... of] loop of the SIGTERM handler walks the live [Map]: an
      entry deleted before the loop reaches it is not visited, an entry added
      meanwhile is. *)

From Stdlib Require Import List String Ascii ZArith Bool Arith Lia.
Import ListNotations.
Open Scope string_scope.

(* ================================================================== *)
(** ** JavaScript values and string helpers *)

Module Js.

(** The value of a property of an object produced by [JSON.parse] or by
    [jsonb_agg]. A number is given by the text [String(v)] prints for it and
    by whether it is zero; an object or array by the text [String(v)] prints
    for it. *)
Inductive jsval : Type :=
| JUndefined
| JNull
| JStr (s : string)
| JBool (b : bool)
| JNum (text : string) (zero : bool)
| JObj (text : string).

(** Conversion performed by a template literal [`${v}`]. *)
Definition toStr (v : jsval) : string :=
  match v with
  | JUndefined => "undefined"
  | JNull => "null"
  | JStr s => s
  | JBool true => "true"
  | JBool false => "false"
  | JNum text _ => text
  | JObj text => text
  end.

(** [Boolean(v)]: [undefined], [null], the empty string, [false] and zero
    are falsy; everything else is truthy. *)
Definition truthy (v : jsval) : bool :=
  match v with
  | JUndefined => false
  | JNull => false
  | JStr s => negb (s =? "")
  | JBool b => b
  | JNum _ zero => negb zero
  | JObj _ => true
  end.

(** [v === lit] for a string literal [lit]. *)
Definition strictEq (v : jsval) (lit : string) : bool :=
  match v with
  | JStr s => s =? lit
  | _ => false
  end.

(** The double quote character, as a one-character string. *)
Definition dq : string := String (ascii_of_nat 34) EmptyString.

(** [s.split(sep)] for a one-character separator. *)
Fixpoint split (sep : ascii) (s : string) : list string :=
  match s with
  | EmptyString => [EmptyString]
  | String c rest =>
      if Ascii.eqb c sep then EmptyString :: split sep rest
      else match split sep rest with
           | [] => [String c EmptyString]
           | w :: ws => String c w :: ws
           end
  end.

(** [l.join(sep)]. *)
Definition join (sep : string) (l : list string) : string :=
  String.concat sep l.

(** [l.slice(1)]. *)
Definition slice1 {A : Type} (l : list A) : list A := tl l.

(** [s.replace(/[:.]/g, '-')]. *)
Fixpoint replaceColonDot (s : string) : string :=
  match s with
  | EmptyString => EmptyString
  | String c rest =>
      String (if (Ascii.eqb c ":" || Ascii.eqb c ".")%bool then "-"%char else c)
             (replaceColonDot rest)
  end.

(** Whether [needle] occurs in [hay], as [hay.includes(needle)] would
    tell; used to say that a text mentions a name. *)
Fixpoint includes (needle hay : string) : bool :=
  (String.prefix needle hay ||
   match hay with
   | EmptyString => false
   | String _ rest => includes needle rest
   end)%bool.

(** Outcome of a computation that may [throw new Error(message)]. *)
Inductive result (A : Type) : Type :=
| Ok (a : A)
| Throw (message : string).
Arguments Ok {A} a.
Arguments Throw {A} message.

End Js.
Import Js.

(* ================================================================== *)
(** ** The command builder: [createFFmpegCommand] *)

(** One element of the [platforms] array. *)
Record platform : Type := mkPlatform {
  type : jsval;
  server : jsval;
  streamKey : jsval;
  url : jsval
}.

(** The callback of [platforms.map]: the output of one platform, [null] for
    a type that is neither ['rtmp'] nor ['custom']. *)
Definition platformOutput (p : platform) : jsval :=
  if strictEq (type p) "rtmp" then
    JStr ("rtmp://" ++ toStr (server p) ++ "/" ++ toStr (streamKey p))
  else if strictEq (type p) "custom" then
    url p
  else JNull.

(** The types the builder knows. *)
Definition supported (p : platform) : bool :=
  (strictEq (type p) "rtmp" || strictEq (type p) "custom")%bool.

(** [platforms.map(...).filter(Boolean)]. *)
Definition outputs (platforms : list platform) : list jsval :=
  filter truthy (map platformOutput platforms).

(** The legs of the tee output: [outputs.map(output => `[f=flv]${output}`)]. *)
Definition teeLegs (outs : list jsval) : list string :=
  map (fun output => "[f=flv]" ++ toStr output) outs.

Definition inputs (videoPath : string) : list string :=
  ["-re -i " ++ dq ++ videoPath ++ dq].

Definition singleCommand (videoPath : string) (out : jsval) : string :=
  join " " (inputs videoPath) ++ " -c:v copy -c:a aac -f flv " ++ dq ++ toStr out ++ dq.

Definition teeCommand (videoPath : string) (outs : list jsval) : string :=
  join " " (inputs videoPath) ++ " -c:v copy -c:a aac -f tee " ++ dq
    ++ join "|" (teeLegs outs) ++ dq.

Definition noOutputsMessage : string := "No valid output platforms provided".

Definition createFFmpegCommand (videoPath : string) (platforms : list platform)
  : result string :=
  let outs := outputs platforms in
  if (List.length outs =? 1)%nat then Ok (singleCommand videoPath (hd JUndefined outs))
  else if (1 <? List.length outs)%nat then Ok (teeCommand videoPath outs)
  else Throw noOutputsMessage.

(* ================================================================== *)
(** ** The registry: a JavaScript [Map] keyed by stream id *)

Module JsMap.
Section Ops.
Variable V : Type.

(** Entries in insertion order. *)
Definition t : Type := list (string * V).

Definition keys (m : t) : list string := map fst m.

Fixpoint has (k : string) (m : t) : bool :=
  match m with
  | [] => false
  | (k', _) :: rest => if k' =? k then true else has k rest
  end.

Fixpoint get (k : string) (m : t) : option V :=
  match m with
  | [] => None
  | (k', v) :: rest => if k' =? k then Some v else get k rest
  end.

(** [m.set(k, v)]: an existing key keeps its place, a new one goes last. *)
Fixpoint set (k : string) (v : V) (m : t) : t :=
  match m with
  | [] => [(k, v)]
  | (k', v') :: rest =>
      if k' =? k then (k, v) :: rest else (k', v') :: set k v rest
  end.

(** [m.delete(k)]. *)
Definition delete (k : string) (m : t) : t :=
  filter (fun e => negb (fst e =? k)) m.

(** How many entries the map holds for [k]. *)
Definition count (k : string) (m : t) : nat :=
  List.length (filter (fun e => fst e =? k) m).
End Ops.
Arguments keys {V} m.
Arguments has {V} k m.
Arguments get {V} k m.
Arguments set {V} k v m.
Arguments delete {V} k m.
Arguments count {V} k m.
End JsMap.

(* ================================================================== *)
(** ** World and worker state *)

Definition jobid : Type := string.
Definition pid : Type := nat.
Definition handle : Type := nat.

(** The constants read from the environment and the library functions the
    worker calls. [spawnThrows n] is the message of the error thrown by the
    [n]-th call of [spawn], if it throws. [nextDate t] is what a
    [new Date()] reads when the [new Date()] before it, in the same run of
    synchronous code, read [t]. *)
Record Env : Type := mkEnv {
  ffmpegPath : string;
  uploadDir : string;
  logDir : string;
  path_join : string -> string -> string;
  toISOString : Z -> string;
  existsSync : string -> bool;
  spawnThrows : nat -> option string;
  nextDate : Z -> Z
}.

(** The value stored in [activeStreams]. *)
Record session : Type := mkSession {
  process : pid;
  logFilename : string;
  logStream : handle;
  startTime : Z;
  platforms : list platform
}.

(** A relay process that was spawned and has not exited. [c_streamId] and
    [c_logStream] are the variables its exit handler closes over; [c_onExit]
    says whether [ffmpegProcess.on('exit', ...)] was already executed. *)
Record child : Type := mkChild {
  c_pid : pid;
  c_streamId : jobid;
  c_logStream : handle;
  c_onExit : bool
}.

(** One of the two output streams of a relay process. *)
Inductive stdio : Type :=
| Stdout
| Stderr.

(** [ffmpegProcess.stdout.pipe(logStream)] or the same for [stderr]: a pipe
    that has not seen the end of its source yet. At the end of the source
    it calls [logStream.end()]. *)
Record pipe : Type := mkPipe {
  pipe_pid : pid;
  pipe_from : stdio;
  pipe_to : handle
}.

(** The three [UPDATE streams SET ... WHERE id = ...] statements, with their
    parameters in the order of the source. *)
Inductive update : Type :=
| SetStarted (status : string) (started_at : Z) (log_file : string) (id : jobid)
| SetEnded (status : string) (ended_at : Z) (id : jobid)
| SetError (status : string) (error : string) (id : jobid).

(** What the worker does to the outside world:
    [fs.createWriteStream(file, {flags: 'a'})] giving stream [h];
    [spawn(command, args, {shell: true})] giving process [p];
    [process.kill('SIGTERM')] on relay process [p]; [logStream.end()];
    [pgClient.query] of an UPDATE; [pgClient.end()]; [redisClient.quit()];
    [process.exit(code)] of the worker. *)
Inductive effect : Type :=
| CreateWriteStream (h : handle) (file : string)
| Spawn (p : pid) (command : string) (args : list string)
| Kill (p : pid)
| LogEnd (h : handle)
| Query (u : update)
| PgEnd
| RedisQuit
| ProcessExit (code : Z).

Record state : Type := mkState {
  activeStreams : JsMap.t session;
  children : list child;
  trace : list effect;
  spawnCalls : nat;
  sinksOpened : nat;
  now : Z;
  pipes : list pipe
}.

Definition initial : state := mkState [] [] [] 0 0 0%Z [].

Definition emit (e : effect) (s : state) : state :=
  mkState (activeStreams s) (children s) (trace s ++ [e])%list
          (spawnCalls s) (sinksOpened s) (now s) (pipes s).

Definition withActive (m : JsMap.t session) (s : state) : state :=
  mkState m (children s) (trace s) (spawnCalls s) (sinksOpened s) (now s) (pipes s).

Definition withChildren (cs : list child) (s : state) : state :=
  mkState (activeStreams s) cs (trace s) (spawnCalls s) (sinksOpened s) (now s) (pipes s).

Definition countSpawnCall (s : state) : state :=
  mkState (activeStreams s) (children s) (trace s) (S (spawnCalls s))
          (sinksOpened s) (now s) (pipes s).

Definition countSink (s : state) : state :=
  mkState (activeStreams s) (children s) (trace s) (spawnCalls s)
          (S (sinksOpened s)) (now s) (pipes s).

Definition withNow (t : Z) (s : state) : state :=
  mkState (activeStreams s) (children s) (trace s) (spawnCalls s)
          (sinksOpened s) t (pipes s).

Definition withPipes (ps : list pipe) (s : state) : state :=
  mkState (activeStreams s) (children s) (trace s) (spawnCalls s)
          (sinksOpened s) (now s) ps.

(** The relay processes of stream [id] that are running. *)
Definition liveProcesses (id : jobid) (s : state) : list child :=
  filter (fun c => c_streamId c =? id) (children s).

(** The processes spawned so far, read off the trace. *)
Fixpoint spawned (tr : list effect) : list pid :=
  match tr with
  | [] => []
  | Spawn p _ _ :: rest => p :: spawned rest
  | _ :: rest => spawned rest
  end.

(** The UPDATEs issued so far, read off the trace. *)
Fixpoint queries (tr : list effect) : list update :=
  match tr with
  | [] => []
  | Query u :: rest => u :: queries rest
  | _ :: rest => queries rest
  end.

(* ================================================================== *)
(** ** The handlers *)

Section Worker.
Variable env : Env.

Definition generateLogFilename (streamId : jobid) (s : state) : string :=
  let timestamp := replaceColonDot (toISOString env (now s)) in
  path_join env (logDir env) ("stream-" ++ streamId ++ "-" ++ timestamp ++ ".log").

(** *** [startStream] *)

(** What remains of [startStream] after its first [await]. *)
Inductive startRest : Type :=
| AttachExit (p : pid)
| ReturnFalse.

(** The [catch] block up to its [await]. *)
Definition startCatch (streamId : jobid) (message : string) (s : state)
  : state * startRest :=
  (emit (Query (SetError "failed" message streamId)) s, ReturnFalse).

(** The [new Date()] of the [startTime] of the session: the second reading
    of [startStream], after the one of the log file name. *)
Definition startTimeRead (s : state) : Z := nextDate env (now s).

(** The [new Date()] of the [started_at] of the UPDATE: the third reading. *)
Definition startedAtRead (s : state) : Z := nextDate env (startTimeRead s).

(** [startStream] up to its first [await]. *)
Definition startStream_begin (streamId : jobid) (videoPath : string)
           (platforms : list platform) (s : state) : state * startRest :=
  let logFilename := generateLogFilename streamId s in
  let startTime := startTimeRead s in
  let started_at := startedAtRead s in
  let logStream := sinksOpened s in
  let s := countSink (emit (CreateWriteStream logStream logFilename) s) in
  match createFFmpegCommand videoPath platforms with
  | Throw message => startCatch streamId message s
  | Ok ffmpegCommand =>
      let ffmpegProcess := spawnCalls s in
      match spawnThrows env ffmpegProcess with
      | Some message => startCatch streamId message (countSpawnCall s)
      | None =>
          let s := emit (Spawn ffmpegProcess (ffmpegPath env)
                               (slice1 (split " " ffmpegCommand)))
                        (countSpawnCall s) in
          let s := withChildren
                     (children s ++ [mkChild ffmpegProcess streamId logStream false])%list s in
          let s := withPipes
                     (pipes s ++ [mkPipe ffmpegProcess Stdout logStream;
                                  mkPipe ffmpegProcess Stderr logStream])%list s in
          let s := withActive
                     (JsMap.set streamId
                        (mkSession ffmpegProcess logFilename logStream startTime platforms)
                        (activeStreams s)) s in
          (emit (Query (SetStarted "active" started_at logFilename streamId)) s,
           AttachExit ffmpegProcess)
      end
  end.

(** [ffmpegProcess.on('exit', ...)]: a process that is gone never fires. *)
Definition attachExit (p : pid) (s : state) : state :=
  withChildren
    (map (fun c => if c_pid c =? p
                   then mkChild (c_pid c) (c_streamId c) (c_logStream c) true
                   else c)%nat (children s)) s.

(** [startStream] after its [await]. *)
Definition startStream_resume (k : startRest) (s : state) : state * bool :=
  match k with
  | AttachExit p => (attachExit p s, true)
  | ReturnFalse => (s, false)
  end.

Definition startStream (streamId : jobid) (videoPath : string)
           (platforms : list platform) (s : state) : state * bool :=
  let (s1, k) := startStream_begin streamId videoPath platforms s in
  startStream_resume k s1.

(** *** The exit handler of a relay process *)

(** [code] is [None] when the process was ended by a signal ([null]). *)
Definition exitStatus (code : option Z) : string :=
  match code with
  | Some 0%Z => "completed"
  | _ => "failed"
  end.

(** The handler up to its [await]. *)
Definition onExit_begin (streamId : jobid) (logStream : handle)
           (code : option Z) (s : state) : state :=
  let s := emit (LogEnd logStream) s in
  emit (Query (SetEnded (exitStatus code) (now s) streamId)) s.

(** The handler after its [await]: [activeStreams.delete(streamId)]. *)
Definition deleteActive (streamId : jobid) (s : state) : state :=
  withActive (JsMap.delete streamId (activeStreams s)) s.

(** The whole handler [async (code) => {...}] of [startStream]. *)
Definition onExit (streamId : jobid) (logStream : handle)
           (code : option Z) (s : state) : state :=
  deleteActive streamId (onExit_begin streamId logStream code s).

Definition findChild (p : pid) (s : state) : option child :=
  find (fun c => c_pid c =? p)%nat (children s).

Definition removeChild (p : pid) (s : state) : state :=
  withChildren (filter (fun c => negb (c_pid c =? p)%nat) (children s)) s.

(** The operating system reports that process [p] ended: the ['exit']
    event, delivered to the handler if one is attached. *)
Definition childExit_begin (p : pid) (code : option Z) (s : state)
  : state * option jobid :=
  match findChild p s with
  | None => (s, None)
  | Some c =>
      if c_onExit c
      then (onExit_begin (c_streamId c) (c_logStream c) code (removeChild p s),
            Some (c_streamId c))
      else (removeChild p s, None)
  end.

Definition childExit (p : pid) (code : option Z) (s : state) : state :=
  match childExit_begin p code s with
  | (s1, Some streamId) => deleteActive streamId s1
  | (s1, None) => s1
  end.

(** *** The pipes into the log stream *)

Definition samePipe (p : pid) (from : stdio) (pp : pipe) : bool :=
  ((pipe_pid pp =? p)%nat
   && match from, pipe_from pp with
      | Stdout, Stdout => true
      | Stderr, Stderr => true
      | _, _ => false
      end)%bool.

(** Output stream [from] of process [p] reaches its end: the pipe that
    reads it, if it is still there, ends the log stream and is gone. *)
Definition pipeEnd (p : pid) (from : stdio) (s : state) : state :=
  match find (samePipe p from) (pipes s) with
  | Some pp =>
      emit (LogEnd (pipe_to pp))
           (withPipes (filter (fun pp => negb (samePipe p from pp)) (pipes s)) s)
  | None => s
  end.

(** *** [stopStream] *)

(** [stopStream] up to its [await]; [true] when the stream was found.
    ([get] answers [None] only where [has] answers [false].) *)
Definition stopStream_begin (streamId : jobid) (s : state) : state * bool :=
  if JsMap.has streamId (activeStreams s) then
    match JsMap.get streamId (activeStreams s) with
    | Some sess =>
        let s := emit (Kill (process sess)) s in
        let s := emit (LogEnd (logStream sess)) s in
        (emit (Query (SetEnded "stopped" (now s) streamId)) s, true)
    | None => (s, false)
    end
  else (s, false).

Definition stopStream (streamId : jobid) (s : state) : state * bool :=
  let (s1, found) := stopStream_begin streamId s in
  if found then (deleteActive streamId s1, true) else (s1, false).

(** The session that [startStream] called in state [s] registers when it
    gets that far. *)
Definition newSession (streamId : jobid) (platforms : list platform) (s : state)
  : session :=
  mkSession (spawnCalls s) (generateLogFilename streamId s) (sinksOpened s)
            (startTimeRead s) platforms.

(** *** [processScheduledStreams] *)

(** One row of the SELECT: a stream that is due, with its platforms. The
    column [video_path] comes as the database has it. *)
Record row : Type := mkRow {
  r_id : jobid;
  r_title : string;
  r_video_path : jsval;
  r_platforms : list platform
}.

Definition fileNotFound : string := "Video file not found".

(** [path.join(uploadDir, video_path)]: a [TypeError] unless [video_path]
    is a string. (The message is only written to the console.) *)
Definition joinUploadDir (video_path : jsval) : result string :=
  match video_path with
  | JStr file => Ok (path_join env (uploadDir env) file)
  | _ => Throw ("The " ++ dq ++ "path" ++ dq ++ " argument must be of type string")
  end.

(** The body of the [for] loop; [Throw] when an exception leaves it. *)
Definition processRow (stream : row) (s : state) : result state :=
  match joinUploadDir (r_video_path stream) with
  | Throw message => Throw message
  | Ok videoPath =>
      if negb (existsSync env videoPath) then
        Ok (emit (Query (SetError "failed" fileNotFound (r_id stream))) s)
      else
        Ok (fst (startStream (r_id stream) videoPath (r_platforms stream) s))
  end.

(** The [for] loop inside the [try]: the state when the loop is left, and
    the message of the exception that left it, if one did. *)
Fixpoint processRows (rows : list row) (s : state) : state * option string :=
  match rows with
  | [] => (s, None)
  | stream :: rest =>
      match processRow stream s with
      | Ok s' => processRows rest s'
      | Throw message => (s, Some message)
      end
  end.

(** [rows] is the answer of the SELECT of this tick. The [catch] around the
    loop writes the exception to the console and the function returns. *)
Definition processScheduledStreams (rows : list row) (s : state) : state :=
  fst (processRows rows s).

(** *** The subscribers of [main] *)

Record startMessage : Type := mkStartMessage {
  m_streamId : jobid;
  m_videoPath : string;
  m_platforms : list platform
}.

Definition onStartMessage (data : startMessage) (s : state) : state :=
  fst (startStream (m_streamId data) (m_videoPath data) (m_platforms data) s).

Definition onStopMessage (streamId : jobid) (s : state) : state :=
  fst (stopStream streamId s).

(** The effects of one [stopStream] on a registered stream, at time [t]. *)
Definition stopEffects (t : Z) (entry : jobid * session) : list effect :=
  [Kill (process (snd entry)); LogEnd (logStream (snd entry));
   Query (SetEnded "stopped" t (fst entry))].

(** *** The SIGTERM handler *)

(** [for (const [streamId] of activeStreams) await stopStream(streamId)].
    The body deletes only the entry being visited, so the entries still to
    be visited are the later entries of the map as it was at the start. *)
Fixpoint stopEach (ids : list jobid) (s : state) : state :=
  match ids with
  | [] => s
  | streamId :: rest => stopEach rest (fst (stopStream streamId s))
  end.

Definition onSIGTERM (s : state) : state :=
  let s := stopEach (JsMap.keys (activeStreams s)) s in
  let s := emit PgEnd s in
  let s := emit RedisQuit s in
  emit (ProcessExit 0) s.

(** *** Interleavings *)

(** The atomic segments of the handlers. Between two of them any other
    may run, so an execution of the worker is a list of these events. *)
Inductive event : Type :=
| StartBegin (streamId : jobid) (videoPath : string) (platforms : list platform)
| StartResume (k : startRest)
| StopBegin (streamId : jobid)
| DeleteResume (streamId : jobid)
| ChildExit (p : pid) (code : option Z)
| PipeEnd (p : pid) (from : stdio)
| MissingFile (streamId : jobid)
| Clock (t : Z)
| EndPg
| QuitRedis
| ExitWorker.

Definition step (ev : event) (s : state) : state :=
  match ev with
  | StartBegin streamId videoPath platforms =>
      fst (startStream_begin streamId videoPath platforms s)
  | StartResume k => fst (startStream_resume k s)
  | StopBegin streamId => fst (stopStream_begin streamId s)
  | DeleteResume streamId => deleteActive streamId s
  | ChildExit p code => fst (childExit_begin p code s)
  | PipeEnd p from => pipeEnd p from s
  | MissingFile streamId =>
      emit (Query (SetError "failed" fileNotFound streamId)) s
  | Clock t => withNow t s
  | EndPg => emit PgEnd s
  | QuitRedis => emit RedisQuit s
  | ExitWorker => emit (ProcessExit 0) s
  end.

Inductive reachable : state -> Prop :=
| reach_initial : reachable initial
| reach_step : forall s ev, reachable s -> reachable (step ev s).
End Worker.

Arguments reach_step {env s} ev _.

(** A run of the worker: the segments of [evs], in order. *)
Definition run (env : Env) (evs : list event) (s : state) : state :=
  fold_left (fun s ev => step env ev s) evs s.

(* ================================================================== *)
(** ** The SIGTERM handler among the other handlers *)

(** Where the SIGTERM handler stands. [for (const [streamId] of
    activeStreams)] walks the live registry: [pending] are the stream ids
    its iterator has still to yield, in order. [Stopping] is the [await] of
    [stopStream(streamId)], [found] what [stopStream] will answer;
    [EndingPg] and [QuittingRedis] are the [await]s of the two clients. *)
Inductive shutdownPc : Type :=
| Iterating (pending : list jobid)
| Stopping (pending : list jobid) (streamId : jobid) (found : bool)
| EndingPg
| QuittingRedis
| Exited.

(** What a change of the registry does to an iterator of the [Map]: an
    entry that was deleted before it was reached is not visited, an entry
    that was added is visited after the others. *)
Definition iteratorAfter (before after : JsMap.t session) (pending : list jobid)
  : list jobid :=
  (filter (fun k => JsMap.has k after) pending
     ++ filter (fun k => negb (JsMap.has k before)) (JsMap.keys after))%list.

Definition retarget (before after : JsMap.t session) (pc : shutdownPc)
  : shutdownPc :=
  match pc with
  | Iterating pending => Iterating (iteratorAfter before after pending)
  | Stopping pending streamId found =>
      Stopping (iteratorAfter before after pending) streamId found
  | _ => pc
  end.

(** The SIGTERM handler from one [await] to the next. *)
Definition shutdownSegment (pc : shutdownPc) (s : state) : shutdownPc * state :=
  match pc with
  | Iterating [] => (EndingPg, emit PgEnd s)
  | Iterating (streamId :: pending) =>
      let (s', found) := stopStream_begin streamId s in
      (Stopping pending streamId found, s')
  | Stopping pending streamId found =>
      let s' := if found then deleteActive streamId s else s in
      (Iterating (iteratorAfter (activeStreams s) (activeStreams s') pending), s')
  | EndingPg => (QuittingRedis, emit RedisQuit s)
  | QuittingRedis => (Exited, emit (ProcessExit 0) s)
  | Exited => (Exited, s)
  end.

(** What runs next while the worker shuts down: the next segment of the
    SIGTERM handler, or a segment of another handler. *)
Inductive move : Type :=
| Shutdown
| Other (ev : event).

(** After [process.exit(0)] nothing runs. *)
Definition shutdownStep (env : Env) (m : move) (c : shutdownPc * state)
  : shutdownPc * state :=
  match fst c with
  | Exited => c
  | pc =>
      match m with
      | Shutdown => shutdownSegment pc (snd c)
      | Other ev =>
          let s' := step env ev (snd c) in
          (retarget (activeStreams (snd c)) (activeStreams s') pc, s')
      end
  end.

Definition shutdownRun (env : Env) (moves : list move) (c : shutdownPc * state)
  : shutdownPc * state :=
  fold_left (fun c m => shutdownStep env m c) moves c.

(** SIGTERM arrives in state [s]. *)
Definition onSIGTERM_begin (s : state) : shutdownPc * state :=
  (Iterating (JsMap.keys (activeStreams s)), s).





(* ================================================================== *)
(** ** Startup: [connectDatabases] and [main] *)

Module Startup.

(** What the two clients answer at startup: for each call, the message of
    the error it fails with, if it fails. *)
Record world : Type := mkWorld {
  pgConnectFails : option string;
  redisConnectFails : option string;
  subscribeStartFails : option string;
  subscribeStopFails : option string
}.

(** The calls made at startup, and [process.exit(code)]. *)
Inductive action : Type :=
| PgConnect
| RedisConnect
| CronSchedule (expression : string)
| Subscribe (channel : string)
| Exit (code : Z).

(** [connectDatabases]: the calls made, and whether it returned (it does
    not when its [catch] block ends the process). *)
Definition connectDatabases (w : world) : list action * bool :=
  match pgConnectFails w with
  | Some _ => ([PgConnect; Exit 1], false)
  | None =>
      match redisConnectFails w with
      | Some _ => ([PgConnect; RedisConnect; Exit 1], false)
      | None => ([PgConnect; RedisConnect], true)
      end
  end.

(** [main().catch(error => process.exit(1))]. *)
Definition main (w : world) : list action :=
  let (connected, returned) := connectDatabases w in
  if returned then
    (connected ++ CronSchedule "* * * * *"
       :: match subscribeStartFails w with
          | Some _ => [Subscribe "stream:start"; Exit 1]
          | None =>
              Subscribe "stream:start"
                :: match subscribeStopFails w with
                   | Some _ => [Subscribe "stream:stop"; Exit 1]
                   | None => [Subscribe "stream:stop"]
                   end
          end)%list
  else connected.

End Startup.

(* ================================================================== *)
(** ** What the trace says about registry and processes *)

(** Log stream [h] was opened. *)
Definition opened (h : handle) (tr : list effect) : Prop :=
  exists file, In (CreateWriteStream h file) tr.

(** The start of session [sess] of stream [streamId] is on the trace: its
    process was spawned, its log file opened, and an UPDATE to ['active']
    with its log file issued. *)
Definition sessionStarted (streamId : jobid) (sess : session) (tr : list effect)
  : Prop :=
  In (process sess) (spawned tr)
  /\ In (CreateWriteStream (logStream sess) (logFilename sess)) tr
  /\ exists started_at,
      In (Query (SetStarted "active" started_at (logFilename sess) streamId)) tr.

Definition consistent (s : state) : Prop :=
  (forall streamId sess,
      In (streamId, sess) (activeStreams s) -> sessionStarted streamId sess (trace s))
  /\ (forall c, In c (children s) ->
                In (c_pid c) (spawned (trace s)) /\ opened (c_logStream c) (trace s))
  /\ (forall p, In (Kill p) (trace s) -> In p (spawned (trace s)))
  /\ (forall h, In (LogEnd h) (trace s) -> opened h (trace s))
  /\ (forall pp, In pp (pipes s) -> opened (pipe_to pp) (trace s)).

(** Every log stream in use, and every one that was ended, is among those
    opened so far. *)
Definition handlesBelow (s : state) : Prop :=
  (forall streamId sess,
      In (streamId, sess) (activeStreams s) -> logStream sess < sinksOpened s)
  /\ (forall c, In c (children s) -> c_logStream c < sinksOpened s)
  /\ (forall h, In (LogEnd h) (trace s) -> h < sinksOpened s)
  /\ (forall pp, In pp (pipes s) -> pipe_to pp < sinksOpened s).

(** Log stream [h] was opened, no session and no process holds it, and it
    was not ended. *)
Definition abandoned (h : handle) (s : state) : Prop :=
  h < sinksOpened s
  /\ (forall streamId sess,
        In (streamId, sess) (activeStreams s) -> logStream sess <> h)
  /\ (forall c, In c (children s) -> c_logStream c <> h)
  /\ (forall pp, In pp (pipes s) -> pipe_to pp <> h)
  /\ ~ In (LogEnd h) (trace s).

(* ================================================================== *)
(** ** Sample data used to exercise the definitions *)

Module Sample.
Definition youtube : platform :=
  mkPlatform (JStr "rtmp") (JStr "a.rtmp.youtube.com/live2") (JStr "k1") JUndefined.
Definition twitch : platform :=
  mkPlatform (JStr "rtmp") (JStr "live.twitch.tv/app") (JStr "k2") JUndefined.
Definition custom : platform :=
  mkPlatform (JStr "custom") JUndefined JUndefined (JStr "srt://relay.example:9000").
Definition customNoUrl : platform :=
  mkPlatform (JStr "custom") JUndefined JUndefined (JStr "").
Definition rtmpBlank : platform :=
  mkPlatform (JStr "rtmp") (JStr "") (JStr "") JUndefined.
Definition hls : platform :=
  mkPlatform (JStr "hls") JUndefined JUndefined (JStr "http://cdn.example/x.m3u8").
Definition customNumber : platform :=
  mkPlatform (JStr "custom") JUndefined JUndefined (JNum "123" false).
Definition rtmpAbsent : platform :=
  mkPlatform (JStr "rtmp") JUndefined JNull JUndefined.

(** An environment in which [spawn] never throws; [present] lists the
    files that exist; the clock advances by one from reading to reading. *)
Definition env (present : list string) : Env :=
  mkEnv "ffmpeg" "./uploads" "./logs"
        (fun dir file => dir ++ "/" ++ file)
        (fun _ => "2024-01-01T00:00:00.000Z")
        (fun file => existsb (String.eqb file) present)
        (fun _ => None)
        (fun t => (t + 1)%Z).

(** The same, with a [spawn] that throws on its first call only. *)
Definition envSpawnFails : Env :=
  mkEnv "ffmpeg" "./uploads" "./logs"
        (fun dir file => dir ++ "/" ++ file)
        (fun _ => "2024-01-01T00:00:00.000Z")
        (fun _ => true)
        (fun n => match n with 0 => Some "spawn EAGAIN" | _ => None end)
        (fun t => (t + 1)%Z).
End Sample.

(* ================================================================== *)
(** ** Facts about the registry operations *)

Module JsMapFacts.
Import JsMap.
Section Facts.
Context {V : Type}.
Implicit Types (m : t V) (k : string) (v : V).

Lemma has_In k m : has k m = true <-> In k (keys m).
Proof.
  induction m as [|[k' v'] rest IH]; simpl.
  - split; [discriminate | tauto].
  - destruct (String.eqb_spec k' k) as [->|Hne].
    + split; auto.
    + rewrite IH. split; [auto | intros [H|H]; [contradiction | exact H]].
Qed.

Lemma has_get k m : has k m = true -> exists v, get k m = Some v.
Proof.
  induction m as [|[k' v'] rest IH]; simpl; [discriminate|].
  destruct (k' =? k); [eauto | exact IH].
Qed.

Lemma get_has k m v : get k m = Some v -> has k m = true.
Proof.
  induction m as [|[k' v'] rest IH]; simpl; [discriminate|].
  destruct (k' =? k); auto.
Qed.

Lemma get_In k m v : get k m = Some v -> In (k, v) m.
Proof.
  induction m as [|[k' v'] rest IH]; simpl; [discriminate|].
  destruct (String.eqb_spec k' k) as [->|Hne].
  - intros [= ->]. now left.
  - auto.
Qed.

Lemma keys_set k v m :
  keys (set k v m) = if has k m then keys m else (keys m ++ [k])%list.
Proof.
  induction m as [|[k' v'] rest IH]; simpl; [reflexivity|].
  destruct (String.eqb_spec k' k) as [->|Hne]; simpl; [reflexivity|].
  rewrite IH. now destruct (has k rest).
Qed.

Lemma get_set_same k v m : get k (set k v m) = Some v.
Proof.
  induction m as [|[k' v'] rest IH]; simpl.
  - now rewrite String.eqb_refl.
  - destruct (String.eqb_spec k' k) as [->|Hne]; simpl.
    + now rewrite String.eqb_refl.
    + destruct (String.eqb_spec k' k); [contradiction | exact IH].
Qed.

Lemma has_set_same k v m : has k (set k v m) = true.
Proof. eapply get_has, get_set_same. Qed.

Lemma length_set k v m :
  List.length (set k v m)
  = if has k m then List.length m else S (List.length m).
Proof.
  induction m as [|[k' v'] rest IH]; simpl; [reflexivity|].
  destruct (k' =? k); simpl; [reflexivity|].
  rewrite IH. now destruct (has k rest).
Qed.

Lemma NoDup_set k v m : NoDup (keys m) -> NoDup (keys (set k v m)).
Proof.
  intros Hnd. rewrite keys_set. destruct (has k m) eqn:Hhas; [exact Hnd|].
  apply NoDup_app; [exact Hnd | repeat constructor; simpl; tauto |].
  intros x Hx [<-|[]]. apply has_In in Hx. congruence.
Qed.

Lemma keys_delete k m : keys (delete k m) = filter (fun k' => negb (k' =? k)) (keys m).
Proof.
  induction m as [|[k' v'] rest IH]; simpl; [reflexivity|].
  destruct (k' =? k); simpl; now rewrite IH.
Qed.

Lemma NoDup_delete k m : NoDup (keys m) -> NoDup (keys (delete k m)).
Proof. intros Hnd. rewrite keys_delete. now apply NoDup_filter. Qed.

Lemma has_delete_same k m : has k (delete k m) = false.
Proof.
  destruct (has k (delete k m)) eqn:H; [|reflexivity].
  apply has_In in H. rewrite keys_delete in H. apply filter_In in H.
  destruct H as [_ H]. now rewrite String.eqb_refl in H.
Qed.

Lemma delete_absent k m : has k m = false -> delete k m = m.
Proof.
  induction m as [|[k' v'] rest IH]; simpl; [reflexivity|].
  destruct (k' =? k); simpl; [discriminate|].
  intros H. now rewrite IH.
Qed.

Lemma delete_delete k m : delete k (delete k m) = delete k m.
Proof. apply delete_absent, has_delete_same. Qed.

Lemma delete_head k v m : has k m = false -> delete k ((k, v) :: m) = m.
Proof.
  intros H. unfold delete. simpl. rewrite String.eqb_refl. simpl.
  now apply delete_absent.
Qed.

Lemma count_absent k m : has k m = false -> count k m = 0.
Proof.
  unfold count. induction m as [|[k' v'] rest IH]; simpl; [reflexivity|].
  destruct (k' =? k); simpl; [discriminate | exact IH].
Qed.

Lemma count_NoDup k m : NoDup (keys m) -> count k m <= 1.
Proof.
  unfold count. induction m as [|[k' v'] rest IH]; simpl; [lia|].
  intros Hnd. inversion Hnd as [|? ? Hnotin Hnd']; subst.
  destruct (String.eqb_spec k' k) as [->|Hne]; simpl; [|auto].
  assert (Habs : has k rest = false).
  { destruct (has k rest) eqn:E; [|reflexivity].
    apply has_In in E. contradiction. }
  apply count_absent in Habs. unfold count in Habs. rewrite Habs. lia.
Qed.

Lemma count_present k m : has k m = true -> 1 <= count k m.
Proof.
  unfold count. induction m as [|[k' v'] rest IH]; simpl; [discriminate|].
  destruct (k' =? k); simpl; [lia | exact IH].
Qed.
End Facts.
End JsMapFacts.

(* ================================================================== *)
(** ** The command builder *)

Section Builder.
Variable videoPath : string.

Lemma platformOutput_unsupported p :
  supported p = false -> platformOutput p = JNull.
Proof.
  unfold supported, platformOutput.
  destruct (strictEq (type p) "rtmp"), (strictEq (type p) "custom");
    simpl; congruence.
Qed.

Lemma outputs_app l1 l2 : outputs (l1 ++ l2) = (outputs l1 ++ outputs l2)%list.
Proof. unfold outputs. now rewrite map_app, filter_app. Qed.

Lemma outputs_cons p l :
  outputs (p :: l)
  = if truthy (platformOutput p) then platformOutput p :: outputs l else outputs l.
Proof. reflexivity. Qed.

Lemma outputs_filter_supported platforms :
  outputs (filter supported platforms) = outputs platforms.
Proof.
  induction platforms as [|p rest IH]; [reflexivity|].
  simpl filter. destruct (supported p) eqn:Hs.
  - rewrite !outputs_cons, IH. reflexivity.
  - rewrite outputs_cons, (platformOutput_unsupported _ Hs). exact IH.
Qed.

Lemma createFFmpegCommand_by_outputs l1 l2 :
  outputs l1 = outputs l2 ->
  createFFmpegCommand videoPath l1 = createFFmpegCommand videoPath l2.
Proof. unfold createFFmpegCommand. now intros ->. Qed.

Lemma createFFmpegCommand_throws_iff platforms message :
  createFFmpegCommand videoPath platforms = Throw message
  <-> outputs platforms = [] /\ message = noOutputsMessage.
Proof.
  unfold createFFmpegCommand.
  destruct (outputs platforms) as [|o1 [|o2 rest]]; simpl.
  - split; [intros [= <-]; auto | intros [_ ->]; reflexivity].
  - split; [discriminate | intros [[=] _]].
  - split; [discriminate | intros [[=] _]].
Qed.

Lemma append_assoc (a b c : string) : ((a ++ b) ++ c = a ++ b ++ c)%string.
Proof. induction a as [|ch a IH]; simpl; [reflexivity | now rewrite IH]. Qed.

(** [legs.join(sep)] of a list that is not empty, followed by [tail]: the
    first leg, then each further leg behind one separator. *)
Lemma join_cons sep leg legs tail :
  (join sep (leg :: legs) ++ tail
   = leg ++ fold_right (fun l acc => sep ++ l ++ acc) tail legs)%string.
Proof.
  unfold join. revert leg. induction legs as [|leg' legs IH]; intros leg.
  - reflexivity.
  - change (String.concat sep (leg :: leg' :: legs))
      with (leg ++ sep ++ String.concat sep (leg' :: legs))%string.
    rewrite !append_assoc, IH. reflexivity.
Qed.

Lemma fold_right_teeLegs (g : string -> string -> string) tail outs :
  fold_right g tail (teeLegs outs)
  = fold_right (fun out acc => g ("[f=flv]" ++ toStr out) acc) tail outs.
Proof.
  unfold teeLegs. induction outs as [|o outs IH]; simpl; [reflexivity|].
  f_equal. exact IH.
Qed.

Lemma createFFmpegCommand_tee first second rest platforms :
  outputs platforms = first :: second :: rest ->
  createFFmpegCommand videoPath platforms
  = Ok (("-re -i " ++ dq ++ videoPath ++ dq)
          ++ " -c:v copy -c:a aac -f tee " ++ dq
          ++ ("[f=flv]" ++ toStr first)
          ++ fold_right (fun out legs => "|" ++ ("[f=flv]" ++ toStr out) ++ legs)
                        dq (second :: rest)).
Proof.
  intros Houts. unfold createFFmpegCommand. rewrite Houts.
  change ((List.length (first :: second :: rest) =? 1)%nat) with false.
  change ((1 <? List.length (first :: second :: rest))%nat) with true.
  cbv iota. unfold teeCommand.
  change (teeLegs (first :: second :: rest))
    with (("[f=flv]" ++ toStr first) :: teeLegs (second :: rest)).
  rewrite join_cons, fold_right_teeLegs. reflexivity.
Qed.
End Builder.

(** C3. Exactly one resolved output gives the single-output command line
    (video copied, audio encoded as aac, flv container) around that output,
    and two or more give one tee command line whose legs are the resolved
    outputs, one leg each and in their order: the first leg, then every
    further leg behind one [|], each leg being the flv tag followed by the
    output, and the closing quote after the last leg. *)
Theorem createFFmpegCommand_single_or_tee :
  forall (videoPath : string) (platforms : list platform),
    (forall out, outputs platforms = [out] ->
       createFFmpegCommand videoPath platforms
       = Ok (("-re -i " ++ dq ++ videoPath ++ dq)
               ++ " -c:v copy -c:a aac -f flv " ++ dq ++ toStr out ++ dq))
    /\ (forall destination, outputs platforms = [JStr destination] ->
        createFFmpegCommand videoPath platforms
        = Ok (("-re -i " ++ dq ++ videoPath ++ dq)
                ++ " -c:v copy -c:a aac -f flv " ++ dq ++ destination ++ dq))
    /\ (forall first second rest,
          outputs platforms = first :: second :: rest ->
          createFFmpegCommand videoPath platforms
          = Ok (("-re -i " ++ dq ++ videoPath ++ dq)
                  ++ " -c:v copy -c:a aac -f tee " ++ dq
                  ++ ("[f=flv]" ++ toStr first)
                  ++ fold_right
                       (fun out legs => "|" ++ ("[f=flv]" ++ toStr out) ++ legs)
                       dq (second :: rest)))
    /\ (forall first second rest,
          outputs platforms = map JStr (first :: second :: rest) ->
          createFFmpegCommand videoPath platforms
          = Ok (("-re -i " ++ dq ++ videoPath ++ dq)
                  ++ " -c:v copy -c:a aac -f tee " ++ dq
                  ++ ("[f=flv]" ++ first)
                  ++ fold_right
                       (fun destination legs =>
                          "|" ++ ("[f=flv]" ++ destination) ++ legs)
                       dq (second :: rest))).
Proof.
  intros videoPath platforms.
  assert (Hsingle : forall out, outputs platforms = [out] ->
            createFFmpegCommand videoPath platforms
            = Ok (("-re -i " ++ dq ++ videoPath ++ dq)
                    ++ " -c:v copy -c:a aac -f flv " ++ dq ++ toStr out ++ dq)).
  { intros out Hout. unfold createFFmpegCommand. rewrite Hout. reflexivity. }
  split; [exact Hsingle|]. split; [|split].
  - intros destination Hout. exact (Hsingle _ Hout).
  - intros first second rest. apply createFFmpegCommand_tee.
  - intros first second rest Houts.
    rewrite (createFFmpegCommand_tee videoPath (JStr first) (JStr second)
               (map JStr rest) platforms Houts).
    assert (Hlegs : forall destinations,
              fold_right (fun out legs => "|" ++ ("[f=flv]" ++ toStr out) ++ legs)
                         dq (map JStr destinations)
              = fold_right (fun destination legs =>
                              "|" ++ ("[f=flv]" ++ destination) ++ legs)
                           dq destinations).
    { induction destinations as [|u destinations IH]; [reflexivity|].
      cbn [map fold_right toStr]. f_equal. f_equal. exact IH. }
    change (JStr second :: map JStr rest) with (map JStr (second :: rest)).
    rewrite Hlegs. reflexivity.
Qed.

Lemma createFFmpegCommand_single_or_tee_witness :
  createFFmpegCommand "a.mp4" [Sample.hls; Sample.youtube]
  = Ok ("-re -i " ++ dq ++ "a.mp4" ++ dq ++ " -c:v copy -c:a aac -f flv "
          ++ dq ++ "rtmp://a.rtmp.youtube.com/live2/k1" ++ dq)
  /\ createFFmpegCommand "a.mp4" [Sample.customNumber]
     = Ok ("-re -i " ++ dq ++ "a.mp4" ++ dq ++ " -c:v copy -c:a aac -f flv "
             ++ dq ++ "123" ++ dq)
  /\ createFFmpegCommand "a.mp4" [Sample.youtube; Sample.custom; Sample.twitch]
     = Ok ("-re -i " ++ dq ++ "a.mp4" ++ dq ++ " -c:v copy -c:a aac -f tee " ++ dq
             ++ "[f=flv]rtmp://a.rtmp.youtube.com/live2/k1"
             ++ "|[f=flv]srt://relay.example:9000"
             ++ "|[f=flv]rtmp://live.twitch.tv/app/k2" ++ dq)
  /\ createFFmpegCommand "a.mp4" [Sample.rtmpAbsent; Sample.hls; Sample.customNumber]
     = Ok ("-re -i " ++ dq ++ "a.mp4" ++ dq ++ " -c:v copy -c:a aac -f tee " ++ dq
             ++ "[f=flv]rtmp://undefined/null" ++ "|[f=flv]123" ++ dq).
Proof.
  split; [|split; [|split]].
  - apply (proj1 (proj2 (createFFmpegCommand_single_or_tee
                           "a.mp4" [Sample.hls; Sample.youtube]))
                 "rtmp://a.rtmp.youtube.com/live2/k1").
    reflexivity.
  - apply (proj1 (createFFmpegCommand_single_or_tee "a.mp4" [Sample.customNumber])
                 (JNum "123" false)).
    reflexivity.
  - apply (proj2 (proj2 (proj2 (createFFmpegCommand_single_or_tee
             "a.mp4" [Sample.youtube; Sample.custom; Sample.twitch])))
             "rtmp://a.rtmp.youtube.com/live2/k1"
             "srt://relay.example:9000" ["rtmp://live.twitch.tv/app/k2"]).
    reflexivity.
  - apply (proj1 (proj2 (proj2 (createFFmpegCommand_single_or_tee
             "a.mp4" [Sample.rtmpAbsent; Sample.hls; Sample.customNumber])))
             (JStr "rtmp://undefined/null") (JNum "123" false) []).
    reflexivity.
Defined.

(** C4. Platforms of an unsupported type are dropped before the outputs are
    counted, and when nothing is left (in particular for an empty list) the
    builder throws; it returns a command line exactly when an output is
    left. *)
Theorem createFFmpegCommand_throws_without_outputs :
  forall (videoPath : string) (platforms : list platform),
    createFFmpegCommand videoPath platforms
    = createFFmpegCommand videoPath (filter supported platforms)
    /\ (outputs platforms = [] ->
        createFFmpegCommand videoPath platforms
        = Throw "No valid output platforms provided")
    /\ (filter supported platforms = [] ->
        createFFmpegCommand videoPath platforms
        = Throw "No valid output platforms provided")
    /\ createFFmpegCommand videoPath [] = Throw "No valid output platforms provided"
    /\ (forall command, createFFmpegCommand videoPath platforms = Ok command ->
        outputs platforms <> []).
Proof.
  intros videoPath platforms.
  assert (Hempty : outputs platforms = [] ->
                   createFFmpegCommand videoPath platforms = Throw noOutputsMessage).
  { intros H. apply createFFmpegCommand_throws_iff. auto. }
  repeat split.
  - apply createFFmpegCommand_by_outputs. symmetry.
    apply outputs_filter_supported.
  - exact Hempty.
  - intros H. apply Hempty. rewrite <- outputs_filter_supported, H. reflexivity.
  - intros command Hok Houts. rewrite (Hempty Houts) in Hok. discriminate.
Qed.

Lemma createFFmpegCommand_throws_without_outputs_witness :
  createFFmpegCommand "a.mp4" [Sample.hls; Sample.customNoUrl]
  = Throw "No valid output platforms provided"
  /\ createFFmpegCommand "a.mp4" [Sample.hls]
     = Throw "No valid output platforms provided".
Proof.
  split.
  - apply (proj1 (proj2 (createFFmpegCommand_throws_without_outputs
                           "a.mp4" [Sample.hls; Sample.customNoUrl]))).
    reflexivity.
  - apply (proj1 (proj2 (proj2 (createFFmpegCommand_throws_without_outputs
                                  "a.mp4" [Sample.hls])))).
    reflexivity.
Defined.

(** C10. Wherever it stands in the list, a ['custom'] platform whose url is
    the empty string contributes no output, while an ['rtmp'] platform always
    contributes one: the text [rtmp://], its server, a slash and its stream
    key. For a server and a key that are strings this is
    [rtmp://server/key], which is [rtmp:///] when both are empty; a server
    or key that is absent is printed as [undefined], one that is [null] as
    [null]. *)
Theorem outputs_empty_destination_asymmetry :
  forall (before after : list platform) (p : platform),
    (type p = JStr "custom" -> url p = JStr "" ->
     outputs (before ++ p :: after) = (outputs before ++ outputs after)%list)
    /\ (type p = JStr "rtmp" ->
        outputs (before ++ p :: after)
        = (outputs before
             ++ JStr ("rtmp://" ++ toStr (server p) ++ "/" ++ toStr (streamKey p))
             :: outputs after)%list)
    /\ (forall host key,
          type p = JStr "rtmp" -> server p = JStr host -> streamKey p = JStr key ->
          outputs (before ++ p :: after)
          = (outputs before ++ JStr ("rtmp://" ++ host ++ "/" ++ key)
                            :: outputs after)%list)
    /\ (type p = JStr "rtmp" -> server p = JStr "" -> streamKey p = JStr "" ->
        outputs (before ++ p :: after)
        = (outputs before ++ JStr "rtmp:///" :: outputs after)%list)
    /\ (type p = JStr "rtmp" -> server p = JUndefined -> streamKey p = JUndefined ->
        outputs (before ++ p :: after)
        = (outputs before ++ JStr "rtmp://undefined/undefined" :: outputs after)%list)
    /\ (type p = JStr "rtmp" -> server p = JNull -> streamKey p = JNull ->
        outputs (before ++ p :: after)
        = (outputs before ++ JStr "rtmp://null/null" :: outputs after)%list).
Proof.
  intros before after p.
  assert (Hrtmp : type p = JStr "rtmp" ->
                  outputs (before ++ p :: after)
                  = (outputs before
                       ++ JStr ("rtmp://" ++ toStr (server p) ++ "/"
                                          ++ toStr (streamKey p))
                       :: outputs after)%list).
  { intros Ht. rewrite outputs_app, outputs_cons.
    unfold platformOutput. rewrite Ht. reflexivity. }
  split; [|split; [|split; [|split; [|split]]]].
  - intros Ht Hu. rewrite outputs_app, outputs_cons.
    unfold platformOutput. rewrite Ht, Hu. reflexivity.
  - exact Hrtmp.
  - intros host key Ht Hs Hk. rewrite (Hrtmp Ht), Hs, Hk. reflexivity.
  - intros Ht Hs Hk. rewrite (Hrtmp Ht), Hs, Hk. reflexivity.
  - intros Ht Hs Hk. rewrite (Hrtmp Ht), Hs, Hk. reflexivity.
  - intros Ht Hs Hk. rewrite (Hrtmp Ht), Hs, Hk. reflexivity.
Qed.

Lemma outputs_empty_destination_asymmetry_witness :
  outputs [Sample.youtube; Sample.customNoUrl; Sample.twitch]
  = [JStr "rtmp://a.rtmp.youtube.com/live2/k1"; JStr "rtmp://live.twitch.tv/app/k2"]
  /\ outputs [Sample.youtube; Sample.rtmpBlank; Sample.twitch]
     = [JStr "rtmp://a.rtmp.youtube.com/live2/k1"; JStr "rtmp:///";
        JStr "rtmp://live.twitch.tv/app/k2"]
  /\ outputs [Sample.rtmpBlank; Sample.twitch; Sample.customNoUrl]
     = [JStr "rtmp:///"; JStr "rtmp://live.twitch.tv/app/k2"]
  /\ outputs [Sample.customNoUrl; Sample.rtmpAbsent]
     = [JStr "rtmp://undefined/null"].
Proof.
  split; [|split; [|split]].
  - apply (proj1 (outputs_empty_destination_asymmetry
                    [Sample.youtube] [Sample.twitch] Sample.customNoUrl));
      reflexivity.
  - apply (proj1 (proj2 (proj2 (proj2 (outputs_empty_destination_asymmetry
             [Sample.youtube] [Sample.twitch] Sample.rtmpBlank)))));
      reflexivity.
  - apply (proj1 (proj2 (proj2 (outputs_empty_destination_asymmetry
             [] [Sample.twitch; Sample.customNoUrl] Sample.rtmpBlank)))
             "" "");
      reflexivity.
  - apply (proj1 (proj2 (outputs_empty_destination_asymmetry
             [Sample.customNoUrl] [] Sample.rtmpAbsent)));
      reflexivity.
Defined.

(* ================================================================== *)
(** ** The handlers, one by one *)

Section WorkerFacts.
Variable env : Env.

Lemma trace_emit e s : trace (emit e s) = (trace s ++ [e])%list.
Proof. reflexivity. Qed.

Lemma deleteActive_idempotent streamId s :
  deleteActive streamId (deleteActive streamId s) = deleteActive streamId s.
Proof.
  unfold deleteActive, withActive. simpl.
  now rewrite JsMapFacts.delete_delete.
Qed.

Lemma deleteActive_absent streamId s :
  JsMap.has streamId (activeStreams s) = false ->
  deleteActive streamId s = s.
Proof.
  intros H. unfold deleteActive, withActive.
  rewrite (JsMapFacts.delete_absent _ _ H). now destruct s.
Qed.

(** [stopStream] on a stream that is not registered. *)
Lemma stopStream_absent streamId s :
  JsMap.has streamId (activeStreams s) = false ->
  stopStream streamId s = (s, false).
Proof.
  intros H. unfold stopStream, stopStream_begin. now rewrite H.
Qed.

(** [stopStream] on a registered stream. *)
Lemma stopStream_present streamId s sess :
  JsMap.get streamId (activeStreams s) = Some sess ->
  stopStream streamId s
  = (mkState (JsMap.delete streamId (activeStreams s)) (children s)
             (trace s ++ [Kill (process sess); LogEnd (logStream sess);
                          Query (SetEnded "stopped" (now s) streamId)])%list
             (spawnCalls s) (sinksOpened s) (now s) (pipes s),
     true).
Proof.
  intros Hget. unfold stopStream, stopStream_begin.
  rewrite (JsMapFacts.get_has _ _ _ Hget), Hget.
  unfold deleteActive, withActive, emit. simpl.
  now rewrite <- !app_assoc.
Qed.

(** [startStream] when the command builder throws. *)
Lemma startStream_build_throws streamId videoPath platforms s message :
  createFFmpegCommand videoPath platforms = Throw message ->
  startStream env streamId videoPath platforms s
  = (mkState (activeStreams s) (children s)
             (trace s ++ [CreateWriteStream (sinksOpened s)
                                            (generateLogFilename env streamId s);
                          Query (SetError "failed" message streamId)])%list
             (spawnCalls s) (S (sinksOpened s)) (now s) (pipes s),
     false).
Proof.
  intros Hb. unfold startStream, startStream_begin. rewrite Hb.
  unfold startCatch, emit, countSink. simpl. now rewrite <- !app_assoc.
Qed.

(** [startStream] when [spawn] throws. *)
Lemma startStream_spawn_throws streamId videoPath platforms s command message :
  createFFmpegCommand videoPath platforms = Ok command ->
  spawnThrows env (spawnCalls s) = Some message ->
  startStream env streamId videoPath platforms s
  = (mkState (activeStreams s) (children s)
             (trace s ++ [CreateWriteStream (sinksOpened s)
                                            (generateLogFilename env streamId s);
                          Query (SetError "failed" message streamId)])%list
             (S (spawnCalls s)) (S (sinksOpened s)) (now s) (pipes s),
     false).
Proof.
  intros Hb Hs. unfold startStream, startStream_begin. rewrite Hb.
  simpl. rewrite Hs.
  unfold startCatch, emit, countSink, countSpawnCall. simpl.
  now rewrite <- !app_assoc.
Qed.

(** [startStream] when the command is built and [spawn] returns. *)
Lemma startStream_spawns streamId videoPath platforms s command :
  createFFmpegCommand videoPath platforms = Ok command ->
  spawnThrows env (spawnCalls s) = None ->
  startStream env streamId videoPath platforms s
  = (attachExit (spawnCalls s)
       (mkState (JsMap.set streamId (newSession env streamId platforms s)
                           (activeStreams s))
                (children s ++ [mkChild (spawnCalls s) streamId (sinksOpened s) false])%list
                (trace s ++ [CreateWriteStream (sinksOpened s)
                                               (generateLogFilename env streamId s);
                             Spawn (spawnCalls s) (ffmpegPath env)
                                   (slice1 (split " " command));
                             Query (SetStarted "active" (startedAtRead env s)
                                      (generateLogFilename env streamId s) streamId)])%list
                (S (spawnCalls s)) (S (sinksOpened s)) (now s)
                (pipes s ++ [mkPipe (spawnCalls s) Stdout (sinksOpened s);
                             mkPipe (spawnCalls s) Stderr (sinksOpened s)])%list),
     true).
Proof.
  intros Hb Hs. destruct s as [reg cs tr calls sinks t ps]. simpl in Hs.
  unfold startStream, startStream_begin. rewrite Hb.
  cbn [countSink emit spawnCalls]. rewrite Hs.
  lazy beta iota zeta delta
    [startStream_resume attachExit newSession emit countSink countSpawnCall
     withChildren withActive withPipes activeStreams children trace spawnCalls
     sinksOpened now pipes fst snd generateLogFilename startTimeRead
     startedAtRead].
  now rewrite <- !app_assoc.
Qed.

Lemma startStream_begin_spawns streamId videoPath platforms s command :
  createFFmpegCommand videoPath platforms = Ok command ->
  spawnThrows env (spawnCalls s) = None ->
  startStream_begin env streamId videoPath platforms s
  = (mkState (JsMap.set streamId (newSession env streamId platforms s)
                        (activeStreams s))
             (children s ++ [mkChild (spawnCalls s) streamId (sinksOpened s) false])%list
             (trace s ++ [CreateWriteStream (sinksOpened s)
                                            (generateLogFilename env streamId s);
                          Spawn (spawnCalls s) (ffmpegPath env)
                                (slice1 (split " " command));
                          Query (SetStarted "active" (startedAtRead env s)
                                   (generateLogFilename env streamId s) streamId)])%list
             (S (spawnCalls s)) (S (sinksOpened s)) (now s)
             (pipes s ++ [mkPipe (spawnCalls s) Stdout (sinksOpened s);
                          mkPipe (spawnCalls s) Stderr (sinksOpened s)])%list,
     AttachExit (spawnCalls s)).
Proof.
  intros Hb Hs. destruct s as [reg cs tr calls sinks t ps]. simpl in Hs.
  unfold startStream_begin. rewrite Hb.
  cbn [countSink emit spawnCalls]. rewrite Hs.
  lazy beta iota zeta delta
    [newSession emit countSink countSpawnCall withChildren withActive withPipes
     activeStreams children trace spawnCalls sinksOpened now pipes fst snd
     generateLogFilename startTimeRead startedAtRead].
  now rewrite <- !app_assoc.
Qed.

(** A start that does not get as far as the registry leaves one opened log
    file and one UPDATE to ['failed'] behind. *)
Lemma startStream_begin_fails streamId videoPath platforms s :
  (exists command,
      createFFmpegCommand videoPath platforms = Ok command
      /\ spawnThrows env (spawnCalls s) = None)
  \/ (exists message calls,
         startStream_begin env streamId videoPath platforms s
         = (mkState (activeStreams s) (children s)
                    (trace s ++ [CreateWriteStream (sinksOpened s)
                                                   (generateLogFilename env streamId s);
                                 Query (SetError "failed" message streamId)])%list
                    calls (S (sinksOpened s)) (now s) (pipes s),
            ReturnFalse)).
Proof.
  destruct (createFFmpegCommand videoPath platforms) as [command|message] eqn:Hb.
  - destruct (spawnThrows env (spawnCalls s)) as [message|] eqn:Hs.
    + right. exists message, (S (spawnCalls s)).
      destruct s as [reg cs tr calls sinks t ps]. simpl in Hs.
      unfold startStream_begin. rewrite Hb.
      cbn [countSink emit spawnCalls]. rewrite Hs.
      lazy beta iota zeta delta
        [startCatch emit countSink countSpawnCall activeStreams children trace
         spawnCalls sinksOpened now pipes generateLogFilename].
      now rewrite <- !app_assoc.
    + left. now exists command.
  - right. exists message, (spawnCalls s).
    destruct s as [reg cs tr calls sinks t ps].
    unfold startStream_begin. rewrite Hb.
    lazy beta iota zeta delta
      [startCatch emit countSink countSpawnCall activeStreams children trace
       spawnCalls sinksOpened now pipes generateLogFilename].
    now rewrite <- !app_assoc.
Qed.

Lemma spawned_app tr1 tr2 : spawned (tr1 ++ tr2) = (spawned tr1 ++ spawned tr2)%list.
Proof.
  induction tr1 as [|e tr1 IH]; [reflexivity|].
  destruct e; simpl; now rewrite IH.
Qed.

Lemma liveProcesses_attachExit streamId p s :
  List.length (liveProcesses streamId (attachExit p s))
  = List.length (liveProcesses streamId s).
Proof.
  unfold liveProcesses, attachExit, withChildren. simpl.
  induction (children s) as [|c cs IH]; [reflexivity|].
  simpl. destruct (c_pid c =? p)%nat; simpl;
    destruct (c_streamId c =? streamId); simpl; now rewrite IH.
Qed.

(** What a [startStream] that gets through changes. *)
Lemma startStream_success streamId videoPath platforms s command :
  createFFmpegCommand videoPath platforms = Ok command ->
  spawnThrows env (spawnCalls s) = None ->
  let s' := fst (startStream env streamId videoPath platforms s) in
  snd (startStream env streamId videoPath platforms s) = true
  /\ spawned (trace s') = (spawned (trace s) ++ [spawnCalls s])%list
  /\ activeStreams s'
     = JsMap.set streamId (newSession env streamId platforms s) (activeStreams s)
  /\ List.length (liveProcesses streamId s')
     = S (List.length (liveProcesses streamId s))
  /\ spawnCalls s' = S (spawnCalls s).
Proof.
  intros Hb Hs. rewrite (startStream_spawns streamId _ _ s _ Hb Hs). simpl.
  split; [reflexivity|]. split.
  { rewrite spawned_app. reflexivity. }
  split; [reflexivity|]. split; [|reflexivity].
  rewrite liveProcesses_attachExit. unfold liveProcesses. simpl.
  rewrite filter_app, length_app. simpl. rewrite String.eqb_refl. simpl. lia.
Qed.

(** The exit of a process whose handler is attached runs the handler. *)
Lemma childExit_runs_onExit p code s c :
  findChild p s = Some c -> c_onExit c = true ->
  childExit p code s
  = onExit (c_streamId c) (c_logStream c) code (removeChild p s).
Proof.
  intros Hfind Hon. unfold childExit, childExit_begin, onExit.
  now rewrite Hfind, Hon.
Qed.

(** The exit of a process whose handler is attached. *)
Lemma childExit_handled p code s c :
  findChild p s = Some c -> c_onExit c = true ->
  childExit p code s
  = mkState (JsMap.delete (c_streamId c) (activeStreams s))
            (filter (fun c' => negb (c_pid c' =? p)%nat) (children s))
            (trace s ++ [LogEnd (c_logStream c);
                         Query (SetEnded (exitStatus code) (now s) (c_streamId c))])%list
            (spawnCalls s) (sinksOpened s) (now s) (pipes s).
Proof.
  intros Hfind Hon. unfold childExit, childExit_begin.
  rewrite Hfind, Hon.
  unfold deleteActive, onExit_begin, removeChild, withActive, withChildren, emit.
  simpl. now rewrite <- !app_assoc.
Qed.
End WorkerFacts.

(** C6. [stopStream] on a stream that is not registered answers [false] and
    changes nothing, so no UPDATE is issued. On a registered stream it sends
    SIGTERM to the process, ends the log stream, issues the UPDATE to
    ['stopped'] with the current time as end time, deletes the registry
    entry and answers [true]; a second [stopStream] right after it answers
    [false] and changes nothing. *)
Theorem stopStream_running_or_not :
  forall (streamId : jobid) (s : state),
    (JsMap.has streamId (activeStreams s) = false ->
     stopStream streamId s = (s, false))
    /\ (forall sess, JsMap.get streamId (activeStreams s) = Some sess ->
        let s' := fst (stopStream streamId s) in
        snd (stopStream streamId s) = true
        /\ trace s' = (trace s ++ [Kill (process sess); LogEnd (logStream sess);
                                   Query (SetEnded "stopped" (now s) streamId)])%list
        /\ activeStreams s' = JsMap.delete streamId (activeStreams s)
        /\ JsMap.has streamId (activeStreams s') = false
        /\ children s' = children s
        /\ stopStream streamId s' = (s', false)).
Proof.
  intros streamId s. split.
  - apply stopStream_absent.
  - intros sess Hget. rewrite (stopStream_present _ _ _ Hget). simpl.
    repeat split.
    + apply JsMapFacts.has_delete_same.
    + apply stopStream_absent. simpl. apply JsMapFacts.has_delete_same.
Qed.

Lemma stopStream_running_or_not_witness :
  let s := fst (startStream (Sample.env []) "j1" "a.mp4" [Sample.youtube] initial) in
  stopStream "j2" s = (s, false)
  /\ snd (stopStream "j1" s) = true
  /\ queries (trace (fst (stopStream "j1" s)))
     = (queries (trace s) ++ [SetEnded "stopped" 0 "j1"])%list
  /\ stopStream "j1" (fst (stopStream "j1" s)) = (fst (stopStream "j1" s), false).
Proof.
  intros s.
  pose proof (stopStream_running_or_not "j2" s) as [Habsent _].
  pose proof (stopStream_running_or_not "j1" s) as [_ Hpresent].
  specialize (Habsent eq_refl).
  specialize (Hpresent _ eq_refl).
  destruct Hpresent as [Hret [Htrace [_ [_ [_ Hagain]]]]].
  split; [exact Habsent|]. split; [exact Hret|]. split; [|exact Hagain].
  rewrite Htrace. reflexivity.
Defined.

(** X16. When a relay process whose exit handler is attached ends, the
    handler ends the log stream, issues the UPDATE to ['completed'] for exit
    code 0 and to ['failed'] for any other code and for an end by signal,
    with the current time as end time, and deletes the registry entry of its
    stream. Deleting an entry that is absent changes nothing, so after a
    [stopStream] of the same stream the handler leaves the registry as the
    stop left it, and the other way round. The handler leaves the two pipes
    into the log stream alone: their ends are events of their own
    ([pipeEnd]). *)
Theorem exit_handler_reaction :
  forall (env : Env) (p : pid) (code : option Z) (s : state) (c : child),
    findChild p s = Some c -> c_onExit c = true ->
    let s' := childExit p code s in
    let status := match code with Some 0%Z => "completed" | _ => "failed" end in
    trace s' = (trace s ++ [LogEnd (c_logStream c);
                            Query (SetEnded status (now s) (c_streamId c))])%list
    /\ activeStreams s' = JsMap.delete (c_streamId c) (activeStreams s)
    /\ JsMap.has (c_streamId c) (activeStreams s') = false
    /\ findChild p s' = None
    /\ (JsMap.has (c_streamId c) (activeStreams s) = false ->
        activeStreams s' = activeStreams s)
    /\ activeStreams (childExit p code (fst (stopStream (c_streamId c) s)))
       = activeStreams (fst (stopStream (c_streamId c) s))
    /\ stopStream (c_streamId c) s' = (s', false)
    /\ deleteActive (c_streamId c) s' = s'
    /\ pipes s' = pipes s.
Proof.
  intros env p code s c Hfind Hon s' status.
  assert (Hs' : s' = childExit p code s) by reflexivity.
  rewrite (childExit_handled p code s c Hfind Hon) in Hs'.
  assert (Hhas : JsMap.has (c_streamId c) (activeStreams s') = false).
  { rewrite Hs'. simpl. apply JsMapFacts.has_delete_same. }
  split; [now rewrite Hs'|]. split; [now rewrite Hs'|]. split; [exact Hhas|].
  split.
  { rewrite Hs'. unfold findChild. simpl.
    destruct (find _ _) eqn:Hf; [|reflexivity].
    apply find_some in Hf. destruct Hf as [Hin Hp].
    apply filter_In in Hin. destruct Hin as [_ Hn]. now rewrite Hp in Hn. }
  split.
  { intros Habs. rewrite Hs'. simpl. now apply JsMapFacts.delete_absent. }
  split.
  { assert (Hf2 : findChild p (fst (stopStream (c_streamId c) s)) = Some c).
    { unfold stopStream, stopStream_begin, findChild.
      destruct (JsMap.has (c_streamId c) (activeStreams s)); [|exact Hfind].
      destruct (JsMap.get (c_streamId c) (activeStreams s)); exact Hfind. }
    rewrite (childExit_handled p code _ c Hf2 Hon). simpl.
    apply JsMapFacts.delete_absent.
    unfold stopStream, stopStream_begin.
    destruct (JsMap.has (c_streamId c) (activeStreams s)) eqn:Hh; [|exact Hh].
    destruct (JsMapFacts.has_get _ _ Hh) as [sess Hget]. rewrite Hget.
    simpl. apply JsMapFacts.has_delete_same. }
  split; [now apply stopStream_absent|].
  split; [now apply deleteActive_absent|].
  now rewrite Hs'.
Qed.

Lemma exit_handler_reaction_witness :
  let s := fst (startStream (Sample.env []) "j1" "a.mp4" [Sample.youtube] initial) in
  queries (trace (childExit 0 (Some 0%Z) s))
  = (queries (trace s) ++ [SetEnded "completed" 0 "j1"])%list
  /\ queries (trace (childExit 0 (Some 1%Z) s))
     = (queries (trace s) ++ [SetEnded "failed" 0 "j1"])%list
  /\ queries (trace (childExit 0 None s))
     = (queries (trace s) ++ [SetEnded "failed" 0 "j1"])%list
  /\ activeStreams (childExit 0 None s) = [].
Proof.
  intros s.
  pose proof (exit_handler_reaction (Sample.env []) 0 (Some 0%Z) s
                (mkChild 0 "j1" 0 true) eq_refl eq_refl) as [H0 _].
  pose proof (exit_handler_reaction (Sample.env []) 0 (Some 1%Z) s
                (mkChild 0 "j1" 0 true) eq_refl eq_refl) as [H1 _].
  pose proof (exit_handler_reaction (Sample.env []) 0 None s
                (mkChild 0 "j1" 0 true) eq_refl eq_refl) as [Hn [Hreg _]].
  split; [rewrite H0; reflexivity|].
  split; [rewrite H1; reflexivity|].
  split; [rewrite Hn; reflexivity|].
  rewrite Hreg. reflexivity.
Defined.

(** C5. When the command builder or [spawn] throws, [startStream] issues the
    UPDATE to ['failed'] with the message of the error, answers [false], and
    registers nothing: registry and running processes are as before the
    call. *)
Theorem startStream_failure_is_persisted :
  forall (env : Env) (streamId : jobid) (videoPath : string)
         (platforms : list platform) (s : state) (message : string),
    (createFFmpegCommand videoPath platforms = Throw message
     \/ (exists command, createFFmpegCommand videoPath platforms = Ok command
                         /\ spawnThrows env (spawnCalls s) = Some message)) ->
    let s' := fst (startStream env streamId videoPath platforms s) in
    snd (startStream env streamId videoPath platforms s) = false
    /\ trace s' = (trace s ++ [CreateWriteStream (sinksOpened s)
                                 (generateLogFilename env streamId s);
                               Query (SetError "failed" message streamId)])%list
    /\ activeStreams s' = activeStreams s
    /\ children s' = children s
    /\ (JsMap.has streamId (activeStreams s) = false ->
        JsMap.has streamId (activeStreams s') = false).
Proof.
  intros env streamId videoPath platforms s message [Hb | [command [Hb Hs]]].
  - rewrite (startStream_build_throws env streamId _ _ s _ Hb). simpl. auto.
  - rewrite (startStream_spawn_throws env streamId _ _ s _ _ Hb Hs). simpl. auto.
Qed.

Lemma startStream_failure_is_persisted_witness :
  (snd (startStream (Sample.env []) "j1" "a.mp4" [Sample.hls] initial) = false
   /\ queries (trace (fst (startStream (Sample.env []) "j1" "a.mp4"
                                       [Sample.hls] initial)))
      = [SetError "failed" "No valid output platforms provided" "j1"]
   /\ activeStreams (fst (startStream (Sample.env []) "j1" "a.mp4"
                                      [Sample.hls] initial)) = [])
  /\ queries (trace (fst (startStream Sample.envSpawnFails "j1" "a.mp4"
                                      [Sample.youtube] initial)))
     = [SetError "failed" "spawn EAGAIN" "j1"].
Proof.
  split.
  - destruct (startStream_failure_is_persisted (Sample.env []) "j1" "a.mp4"
                [Sample.hls] initial "No valid output platforms provided"
                (or_introl eq_refl)) as [Hret [Htrace [Hreg _]]].
    split; [exact Hret|]. split; [rewrite Htrace; reflexivity | exact Hreg].
  - destruct (startStream_failure_is_persisted Sample.envSpawnFails "j1" "a.mp4"
                [Sample.youtube] initial "spawn EAGAIN"
                (or_intror (ex_intro _ _ (conj eq_refl eq_refl))))
      as [_ [Htrace _]].
    rewrite Htrace. reflexivity.
Defined.

(** C5, as the specification words it, fails on a stream that is already
    registered: the failed start leaves the earlier session in the
    registry. *)
Lemma startStream_failure_keeps_earlier_session :
  let env := Sample.env [] in
  let s := fst (startStream env "j1" "a.mp4" [Sample.youtube] initial) in
  createFFmpegCommand "a.mp4" [] = Throw "No valid output platforms provided"
  /\ snd (startStream env "j1" "a.mp4" [] s) = false
  /\ JsMap.has "j1" (activeStreams (fst (startStream env "j1" "a.mp4" [] s))) = true
  /\ ~ (forall (env : Env) (streamId : jobid) (videoPath : string)
               (platforms : list platform) (s : state) (message : string),
          createFFmpegCommand videoPath platforms = Throw message ->
          JsMap.has streamId
            (activeStreams (fst (startStream env streamId videoPath platforms s)))
          = false).
Proof.
  intros env s. repeat split.
  intros H.
  specialize (H env "j1" "a.mp4" [] s "No valid output platforms provided" eq_refl).
  discriminate H.
Qed.

(** C1, as amended. [startStream] does not look the stream up before it
    starts. On a stream that is already registered, when the command is built
    and [spawn] returns, it spawns one more process, puts the new session in
    the place of the registered one and answers [true]; the process of the
    earlier session keeps running. Two calls in a row for a stream that was
    not registered therefore spawn two processes and both answer [true]. *)
Theorem startStream_does_not_deduplicate :
  forall (env : Env) (streamId : jobid) (videoPath : string)
         (platforms : list platform) (s : state) (command : string),
    createFFmpegCommand videoPath platforms = Ok command ->
    spawnThrows env (spawnCalls s) = None ->
    let first := startStream env streamId videoPath platforms s in
    (JsMap.has streamId (activeStreams s) = true ->
     snd first = true
     /\ spawned (trace (fst first)) = (spawned (trace s) ++ [spawnCalls s])%list
     /\ JsMap.get streamId (activeStreams (fst first))
        = Some (newSession env streamId platforms s)
     /\ List.length (activeStreams (fst first)) = List.length (activeStreams s)
     /\ List.length (liveProcesses streamId (fst first))
        = S (List.length (liveProcesses streamId s)))
    /\ (JsMap.has streamId (activeStreams s) = false ->
        spawnThrows env (S (spawnCalls s)) = None ->
        let second := startStream env streamId videoPath platforms (fst first) in
        snd first = true /\ snd second = true
        /\ spawned (trace (fst second))
           = (spawned (trace s) ++ [spawnCalls s; S (spawnCalls s)])%list
        /\ JsMap.get streamId (activeStreams (fst second))
           = Some (newSession env streamId platforms (fst first))
        /\ List.length (activeStreams (fst second)) = S (List.length (activeStreams s))
        /\ List.length (liveProcesses streamId (fst second))
           = S (S (List.length (liveProcesses streamId s)))).
Proof.
  intros env streamId videoPath platforms s command Hb Hs first.
  destruct (startStream_success env streamId _ _ s _ Hb Hs)
    as [Hret [Hsp [Hreg [Hlive Hcalls]]]].
  fold first in Hret, Hsp, Hreg, Hlive, Hcalls.
  split.
  - intros Hhas. split; [exact Hret|]. split; [exact Hsp|]. split.
    { rewrite Hreg. apply JsMapFacts.get_set_same. }
    split; [|exact Hlive].
    rewrite Hreg, JsMapFacts.length_set, Hhas. reflexivity.
  - intros Hhas Hs2 second.
    rewrite <- Hcalls in Hs2.
    destruct (startStream_success env streamId _ _ (fst first) _ Hb Hs2)
      as [Hret2 [Hsp2 [Hreg2 [Hlive2 _]]]].
    fold second in Hret2, Hsp2, Hreg2, Hlive2.
    split; [exact Hret|]. split; [exact Hret2|]. split.
    { rewrite Hsp2, Hsp, Hcalls, <- app_assoc. reflexivity. }
    split.
    { rewrite Hreg2. apply JsMapFacts.get_set_same. }
    split.
    { rewrite Hreg2, JsMapFacts.length_set, Hreg, JsMapFacts.has_set_same.
      rewrite JsMapFacts.length_set, Hhas. reflexivity. }
    rewrite Hlive2, Hlive. reflexivity.
Qed.

Lemma startStream_does_not_deduplicate_witness :
  let env := Sample.env [] in
  let first := startStream env "j1" "a.mp4" [Sample.youtube] initial in
  let second := startStream env "j1" "a.mp4" [Sample.youtube] (fst first) in
  let third := startStream env "j1" "a.mp4" [Sample.youtube] (fst second) in
  (snd first = true /\ snd second = true
   /\ spawned (trace (fst second)) = [0; 1]
   /\ List.length (activeStreams (fst second)) = 1
   /\ List.length (liveProcesses "j1" (fst second)) = 2)
  /\ (snd third = true /\ spawned (trace (fst third)) = [0; 1; 2]).
Proof.
  intros env first second third. split.
  - destruct (startStream_does_not_deduplicate env "j1" "a.mp4" [Sample.youtube]
                initial _ eq_refl eq_refl) as [_ H].
    destruct (H eq_refl eq_refl) as [H1 [H2 [H3 [_ [H4 H5]]]]].
    repeat split; assumption.
  - destruct (startStream_does_not_deduplicate env "j1" "a.mp4" [Sample.youtube]
                (fst second) _ eq_refl eq_refl) as [H _].
    destruct (H eq_refl) as [H1 [H2 _]].
    split; assumption.
Defined.

(** C1, as the specification words it, fails: a start request for a
    registered stream answers [true] and spawns a second process. *)
Lemma startStream_twice_spawns_twice :
  let env := Sample.env [] in
  let s := fst (startStream env "j1" "a.mp4" [Sample.youtube] initial) in
  JsMap.has "j1" (activeStreams s) = true
  /\ snd (startStream env "j1" "a.mp4" [Sample.youtube] s) = true
  /\ spawned (trace s) = [0]
  /\ spawned (trace (fst (startStream env "j1" "a.mp4" [Sample.youtube] s))) = [0; 1]
  /\ ~ (forall (env : Env) (streamId : jobid) (videoPath : string)
               (platforms : list platform) (s : state),
          JsMap.has streamId (activeStreams s) = true ->
          snd (startStream env streamId videoPath platforms s) = false
          /\ spawned (trace (fst (startStream env streamId videoPath platforms s)))
             = spawned (trace s)).
Proof.
  intros env s. repeat split.
  intros H.
  destruct (H env "j1" "a.mp4" [Sample.youtube] s eq_refl) as [Hret _].
  discriminate Hret.
Qed.

(* ================================================================== *)
(** ** Reachable states *)

Section Reachability.
Variable env : Env.

(** A segment leaves the registry alone, or applies one [set], or one
    [delete]. *)
Lemma step_registry ev s :
  activeStreams (step env ev s) = activeStreams s
  \/ (exists streamId sess,
        activeStreams (step env ev s) = JsMap.set streamId sess (activeStreams s))
  \/ (exists streamId,
        activeStreams (step env ev s) = JsMap.delete streamId (activeStreams s)).
Proof.
  destruct ev as [streamId videoPath platforms | k | streamId | streamId
                 | p code | p from | streamId | t | | |]; simpl.
  - unfold startStream_begin.
    destruct (createFFmpegCommand videoPath platforms); simpl; [|now left].
    destruct (spawnThrows env _); simpl; [now left|].
    right. left. eexists. eexists. reflexivity.
  - destruct k; now left.
  - unfold stopStream_begin.
    destruct (JsMap.has streamId (activeStreams s)); [|now left].
    destruct (JsMap.get streamId (activeStreams s)); now left.
  - right. right. now exists streamId.
  - unfold childExit_begin. destruct (findChild p s) as [c|]; [|now left].
    destruct (c_onExit c); now left.
  - unfold pipeEnd. destruct (find _ _); now left.
  - now left.
  - now left.
  - now left.
  - now left.
  - now left.
Qed.

Lemma step_preserves_NoDup ev s :
  NoDup (JsMap.keys (activeStreams s)) ->
  NoDup (JsMap.keys (activeStreams (step env ev s))).
Proof.
  intros Hnd.
  destruct (step_registry ev s) as [-> | [[k [v ->]] | [k ->]]].
  - exact Hnd.
  - now apply JsMapFacts.NoDup_set.
  - now apply JsMapFacts.NoDup_delete.
Qed.

Lemma reachable_NoDup s :
  reachable env s -> NoDup (JsMap.keys (activeStreams s)).
Proof.
  induction 1 as [|s ev _ IH].
  - constructor.
  - now apply step_preserves_NoDup.
Qed.

(** The handlers are runs of their segments. *)
Lemma reachable_startStream streamId videoPath platforms s :
  reachable env s ->
  reachable env (fst (startStream env streamId videoPath platforms s)).
Proof.
  intros Hr. unfold startStream.
  pose proof (reach_step (StartBegin streamId videoPath platforms) Hr) as H1.
  simpl in H1.
  destruct (startStream_begin env streamId videoPath platforms s) as [s1 k].
  exact (reach_step (StartResume k) H1).
Qed.

Lemma reachable_stopStream streamId s :
  reachable env s -> reachable env (fst (stopStream streamId s)).
Proof.
  intros Hr. unfold stopStream.
  pose proof (reach_step (StopBegin streamId) Hr) as H1. simpl in H1.
  destruct (stopStream_begin streamId s) as [s1 [|]]; simpl in *.
  - exact (reach_step (DeleteResume streamId) H1).
  - exact H1.
Qed.

Lemma reachable_childExit p code s :
  reachable env s -> reachable env (childExit p code s).
Proof.
  intros Hr. unfold childExit.
  pose proof (reach_step (ChildExit p code) Hr) as H1. simpl in H1.
  destruct (childExit_begin p code s) as [s1 [streamId|]]; simpl in *.
  - exact (reach_step (DeleteResume streamId) H1).
  - exact H1.
Qed.

Lemma reachable_processScheduledStreams rows s :
  reachable env s -> reachable env (processScheduledStreams env rows s).
Proof.
  unfold processScheduledStreams. revert s.
  induction rows as [|stream rows IH]; intros s Hr; simpl; [exact Hr|].
  unfold processRow.
  destruct (joinUploadDir env (r_video_path stream)) as [videoPath|message];
    [|exact Hr].
  destruct (negb (existsSync env videoPath)); apply IH.
  - exact (reach_step (MissingFile (r_id stream)) Hr).
  - now apply reachable_startStream.
Qed.

Lemma reachable_stopEach ids s :
  reachable env s -> reachable env (stopEach ids s).
Proof.
  revert s. induction ids as [|streamId ids IH]; intros s Hr; simpl; [exact Hr|].
  apply IH. now apply reachable_stopStream.
Qed.

Lemma reachable_onSIGTERM s :
  reachable env s -> reachable env (onSIGTERM s).
Proof.
  intros Hr. unfold onSIGTERM.
  apply (reach_step ExitWorker).
  apply (reach_step QuitRedis).
  apply (reach_step EndPg).
  now apply reachable_stopEach.
Qed.

(** Process ids are handed out in order: a running process has an id below
    the number of [spawn] calls made so far. *)
Lemma step_pids ev s :
  Forall (fun c => c_pid c < spawnCalls s) (children s) ->
  Forall (fun c => c_pid c < spawnCalls (step env ev s)) (children (step env ev s)).
Proof.
  intros Hp.
  destruct ev as [streamId videoPath platforms | k | streamId | streamId
                 | p code | p from | streamId | t | | |]; simpl; try exact Hp.
  - unfold startStream_begin.
    destruct (createFFmpegCommand videoPath platforms); simpl; [|exact Hp].
    destruct (spawnThrows env _); simpl.
    + eapply Forall_impl; [|exact Hp]. simpl. intros c Hc. lia.
    + apply Forall_app. split.
      * eapply Forall_impl; [|exact Hp]. simpl. intros c Hc. lia.
      * repeat constructor.
  - destruct k as [p|]; simpl; [|exact Hp].
    apply Forall_map. eapply Forall_impl; [|exact Hp].
    simpl. intros c Hc. now destruct (c_pid c =? p)%nat.
  - unfold stopStream_begin.
    destruct (JsMap.has streamId (activeStreams s)); [|exact Hp].
    destruct (JsMap.get streamId (activeStreams s)); exact Hp.
  - assert (Hf : Forall (fun c => c_pid c < spawnCalls s)
                        (filter (fun c => negb (c_pid c =? p)%nat) (children s))).
    { apply Forall_forall. intros c Hc. apply filter_In in Hc.
      destruct Hc as [Hc _]. revert c Hc. now apply Forall_forall. }
    unfold childExit_begin. destruct (findChild p s) as [c|]; [|exact Hp].
    destruct (c_onExit c); exact Hf.
  - unfold pipeEnd. destruct (find _ _); exact Hp.
Qed.

Lemma reachable_pids s :
  reachable env s -> Forall (fun c => c_pid c < spawnCalls s) (children s).
Proof.
  induction 1 as [|s ev _ IH]; [constructor | now apply step_pids].
Qed.

(** Once [startStream] has returned [true], the exit handler of the process
    it spawned is attached. *)
Lemma startStream_attaches_handler streamId videoPath platforms s command :
  Forall (fun c => c_pid c < spawnCalls s) (children s) ->
  createFFmpegCommand videoPath platforms = Ok command ->
  spawnThrows env (spawnCalls s) = None ->
  findChild (spawnCalls s) (fst (startStream env streamId videoPath platforms s))
  = Some (mkChild (spawnCalls s) streamId (sinksOpened s) true).
Proof.
  intros Hp Hb Hs. rewrite (startStream_spawns env streamId _ _ s _ Hb Hs).
  unfold findChild, attachExit. simpl.
  induction (children s) as [|c cs IH]; simpl.
  - rewrite Nat.eqb_refl. simpl. now rewrite Nat.eqb_refl.
  - inversion Hp as [|? ? Hc Hcs]; subst.
    assert (E : (c_pid c =? spawnCalls s)%nat = false) by (apply Nat.eqb_neq; lia).
    rewrite E. simpl. rewrite E. now apply IH.
Qed.
End Reachability.

(** A bound on the entries of a key follows from reachability. *)
Ltac by_reachability env :=
  apply JsMapFacts.count_NoDup, reachable_NoDup with (env := env).

(** C2, as amended. In every state the worker can reach, by any interleaving
    of the segments of its handlers, the registry holds at most one session
    for a stream id, and each of [startStream], [stopStream] and the exit of
    a process leads to such a state again. *)
Theorem registry_holds_one_session_per_stream :
  forall (env : Env) (s : state),
    reachable env s ->
    NoDup (JsMap.keys (activeStreams s))
    /\ (forall streamId, JsMap.count streamId (activeStreams s) <= 1)
    /\ (forall streamId videoPath platforms id,
          JsMap.count id
            (activeStreams (fst (startStream env streamId videoPath platforms s))) <= 1)
    /\ (forall streamId id,
          JsMap.count id (activeStreams (fst (stopStream streamId s))) <= 1)
    /\ (forall p code id,
          JsMap.count id (activeStreams (childExit p code s)) <= 1)
    /\ (forall ev id, JsMap.count id (activeStreams (step env ev s)) <= 1).
Proof.
  intros env s Hr.
  split; [now apply reachable_NoDup with (env := env)|].
  repeat split; intros; by_reachability env.
  - exact Hr.
  - now apply reachable_startStream.
  - now apply reachable_stopStream.
  - now apply reachable_childExit.
  - now constructor.
Qed.

Lemma registry_holds_one_session_per_stream_witness :
  let env := Sample.env [] in
  let s := fst (startStream env "j1" "a.mp4" [Sample.youtube]
             (fst (startStream env "j1" "a.mp4" [Sample.youtube] initial))) in
  reachable env s
  /\ JsMap.count "j1" (activeStreams s) <= 1
  /\ JsMap.count "j1" (activeStreams
                         (fst (startStream env "j1" "b.mp4" [Sample.twitch] s))) <= 1.
Proof.
  intros env s.
  assert (Hr : reachable env s).
  { apply reachable_startStream, reachable_startStream, reach_initial. }
  split; [exact Hr|].
  destruct (registry_holds_one_session_per_stream env s Hr) as [_ [Hc [Hstart _]]].
  split; [apply Hc | apply Hstart].
Defined.

(** C2, as the specification words it, fails for the relay processes: after
    two start requests for one stream, two of its processes are running while
    the registry holds one session. *)
Lemma two_live_processes_for_one_stream :
  let env := Sample.env [] in
  let s := fst (startStream env "j1" "a.mp4" [Sample.youtube]
             (fst (startStream env "j1" "a.mp4" [Sample.youtube] initial))) in
  reachable env s
  /\ JsMap.count "j1" (activeStreams s) = 1
  /\ List.length (liveProcesses "j1" s) = 2
  /\ ~ (forall (env : Env) (s : state),
          reachable env s ->
          forall streamId,
            JsMap.count streamId (activeStreams s) <= 1
            /\ List.length (liveProcesses streamId s) <= 1).
Proof.
  intros env s.
  assert (Hr : reachable env s).
  { apply reachable_startStream, reachable_startStream, reach_initial. }
  split; [exact Hr|]. split; [reflexivity|]. split; [reflexivity|].
  intros H. destruct (H env s Hr "j1") as [_ Hlive].
  change (2 <= 1) in Hlive. lia.
Qed.

(* ================================================================== *)
(** ** The scheduler tick *)

Section Tick.
Variable env : Env.

(** Whatever its outcome, [startStream] first opens the log file. *)
Lemma startStream_trace streamId videoPath platforms s :
  exists later,
    trace (fst (startStream env streamId videoPath platforms s))
    = (trace s ++ CreateWriteStream (sinksOpened s)
                                    (generateLogFilename env streamId s)
               :: later)%list.
Proof.
  destruct (createFFmpegCommand videoPath platforms) as [command|message] eqn:Hb.
  - destruct (spawnThrows env (spawnCalls s)) as [message|] eqn:Hs.
    + rewrite (startStream_spawn_throws env streamId _ _ s _ _ Hb Hs).
      simpl. eexists. reflexivity.
    + rewrite (startStream_spawns env streamId _ _ s _ Hb Hs).
      simpl. eexists. reflexivity.
  - rewrite (startStream_build_throws env streamId _ _ s _ Hb).
    simpl. eexists. reflexivity.
Qed.

(** A row whose [video_path] is a string. *)
Lemma processRow_string stream s file :
  r_video_path stream = JStr file ->
  processRow env stream s
  = Ok (if negb (existsSync env (path_join env (uploadDir env) file))
        then emit (Query (SetError "failed" fileNotFound (r_id stream))) s
        else fst (startStream env (r_id stream)
                              (path_join env (uploadDir env) file)
                              (r_platforms stream) s)).
Proof.
  intros Hpath. unfold processRow, joinUploadDir. rewrite Hpath.
  now destruct (negb (existsSync env _)).
Qed.

(** A row whose [video_path] is not a string: [path.join] throws. *)
Lemma processRow_not_string stream s :
  (forall file, r_video_path stream <> JStr file) ->
  exists message, processRow env stream s = Throw message.
Proof.
  intros Hpath. unfold processRow, joinUploadDir.
  destruct (r_video_path stream) as [| |file| | |];
    try (eexists; reflexivity).
  now destruct (Hpath file).
Qed.

Lemma processRow_trace stream s s' :
  processRow env stream s = Ok s' ->
  exists more, trace s' = (trace s ++ more)%list.
Proof.
  unfold processRow.
  destruct (joinUploadDir env (r_video_path stream)) as [videoPath|message];
    [|discriminate].
  destruct (negb (existsSync env videoPath)); intros [= <-].
  - eexists. reflexivity.
  - destruct (startStream_trace (r_id stream) videoPath (r_platforms stream) s)
      as [later H].
    eexists. exact H.
Qed.

(** The trace only grows during a tick. *)
Lemma processScheduledStreams_trace rows s :
  exists more,
    trace (processScheduledStreams env rows s) = (trace s ++ more)%list.
Proof.
  unfold processScheduledStreams. revert s.
  induction rows as [|stream rows IH]; intros s; simpl.
  - exists []. now rewrite app_nil_r.
  - destruct (processRow env stream s) as [s'|message] eqn:Hrow; simpl.
    + destruct (IH s') as [more2 H2].
      destruct (processRow_trace stream s s' Hrow) as [more1 H1].
      exists (more1 ++ more2)%list. now rewrite H2, H1, app_assoc.
    + exists []. now rewrite app_nil_r.
Qed.

(** The loop over [before ++ after], when no row of [before] makes
    [path.join] throw, is the loop over [after] from where [before] ends. *)
Lemma processScheduledStreams_app before after s :
  Forall (fun r => exists file, r_video_path r = JStr file) before ->
  processScheduledStreams env (before ++ after) s
  = processScheduledStreams env after (processScheduledStreams env before s).
Proof.
  unfold processScheduledStreams. intros Hall. revert s.
  induction Hall as [|stream before [file Hpath] _ IH]; intros s; simpl;
    [reflexivity|].
  rewrite (processRow_string stream s file Hpath). apply IH.
Qed.

(** A row that makes [path.join] throw ends the loop. *)
Lemma processScheduledStreams_abort stream after s :
  (forall file, r_video_path stream <> JStr file) ->
  processScheduledStreams env (stream :: after) s = s.
Proof.
  intros Hpath. unfold processScheduledStreams. simpl.
  destruct (processRow_not_string stream s Hpath) as [message ->]. reflexivity.
Qed.
End Tick.

(** C8, as amended. In a tick, as long as no earlier row made [path.join]
    throw (whatever else happened to the earlier rows: missing files, starts
    that failed), a due row whose file does not exist gets exactly one
    effect, the UPDATE to ['failed'] with the error text ['Video file not
    found']: no log file is opened, no process is spawned and the registry
    is not touched. A due row whose file exists gets its [startStream],
    which begins by opening the log file. In both cases the rows after it
    are processed next. A row whose [video_path] is not a string makes
    [path.join] throw: the one [try]/[catch] around the loop ends the tick
    there, and neither this row nor a later one gets anything. *)
Theorem tick_handles_every_due_row :
  forall (env : Env) (before after : list row) (stream : row) (s : state),
    Forall (fun r => exists file, r_video_path r = JStr file) before ->
    let s1 := processScheduledStreams env before s in
    let final := processScheduledStreams env (before ++ stream :: after) s in
    (forall file,
        r_video_path stream = JStr file ->
        let videoPath := path_join env (uploadDir env) file in
        (existsSync env videoPath = false ->
         let s2 := emit (Query (SetError "failed" "Video file not found"
                                         (r_id stream))) s1 in
         processRow env stream s1 = Ok s2
         /\ final = processScheduledStreams env after s2
         /\ spawned (trace s2) = spawned (trace s1)
         /\ exists later,
             trace final
             = (trace s1 ++ Query (SetError "failed" "Video file not found"
                                            (r_id stream)) :: later)%list)
        /\ (existsSync env videoPath = true ->
            let s2 := fst (startStream env (r_id stream) videoPath
                                       (r_platforms stream) s1) in
            processRow env stream s1 = Ok s2
            /\ final = processScheduledStreams env after s2
            /\ exists later,
                trace final
                = (trace s1 ++ CreateWriteStream (sinksOpened s1)
                                 (generateLogFilename env (r_id stream) s1)
                            :: later)%list))
    /\ ((forall file, r_video_path stream <> JStr file) ->
        (exists message, processRow env stream s1 = Throw message)
        /\ final = s1).
Proof.
  intros env before after stream s Hbefore s1 final.
  assert (Hfinal : final = processScheduledStreams env (stream :: after) s1).
  { unfold final, s1. now apply processScheduledStreams_app. }
  split.
  - intros file Hpath videoPath.
    pose proof (processRow_string env stream s1 file Hpath) as Hrow.
    fold videoPath in Hrow.
    assert (Hnext : forall s2, processRow env stream s1 = Ok s2 ->
                               final = processScheduledStreams env after s2).
    { intros s2 H2. rewrite Hfinal. unfold processScheduledStreams. simpl.
      now rewrite H2. }
    split.
    + intros Hmissing s2. rewrite Hmissing in Hrow. simpl in Hrow.
      split; [exact Hrow|]. split; [now apply Hnext|]. split.
      * unfold s2. simpl. rewrite spawned_app. simpl. now rewrite app_nil_r.
      * destruct (processScheduledStreams_trace env after s2) as [more Hmore].
        exists more. rewrite (Hnext s2 Hrow), Hmore. unfold s2. simpl.
        now rewrite <- app_assoc.
    + intros Hpresent s2. rewrite Hpresent in Hrow. simpl in Hrow.
      split; [exact Hrow|]. split; [now apply Hnext|].
      destruct (processScheduledStreams_trace env after s2) as [more Hmore].
      destruct (startStream_trace env (r_id stream) videoPath
                  (r_platforms stream) s1) as [later Hlater].
      exists (later ++ more)%list.
      rewrite (Hnext s2 Hrow), Hmore. unfold s2.
      rewrite Hlater, <- app_assoc. reflexivity.
  - intros Hpath. split.
    + now apply processRow_not_string.
    + rewrite Hfinal. now apply processScheduledStreams_abort.
Qed.

Lemma tick_handles_every_due_row_witness :
  let env := Sample.env ["./uploads/b.mp4"] in
  let bad := mkRow "j0" "no platform" (JStr "b.mp4") [] in
  let missing := mkRow "j1" "no file" (JStr "a.mp4") [Sample.youtube] in
  let good := mkRow "j2" "fine" (JStr "b.mp4") [Sample.youtube] in
  let broken := mkRow "j3" "no path" JNull [Sample.youtube] in
  queries (trace (processScheduledStreams env [bad; missing; good] initial))
  = [SetError "failed" "No valid output platforms provided" "j0";
     SetError "failed" "Video file not found" "j1";
     SetStarted "active" 2 "./logs/stream-j2-2024-01-01T00-00-00-000Z.log" "j2"]
  /\ (exists later,
        trace (processScheduledStreams env [bad; missing; good] initial)
        = (trace (processScheduledStreams env [bad] initial)
             ++ Query (SetError "failed" "Video file not found" "j1") :: later)%list)
  /\ (exists later,
        trace (processScheduledStreams env [bad; missing; good] initial)
        = (trace (processScheduledStreams env [bad; missing] initial)
             ++ CreateWriteStream 1 "./logs/stream-j2-2024-01-01T00-00-00-000Z.log"
             :: later)%list)
  /\ processScheduledStreams env [bad; broken; good] initial
     = processScheduledStreams env [bad] initial.
Proof.
  intros env bad missing good broken.
  assert (Hbad : Forall (fun r => exists file, r_video_path r = JStr file) [bad]).
  { constructor; [now exists "b.mp4" | constructor]. }
  assert (Hbad2 : Forall (fun r => exists file, r_video_path r = JStr file)
                         [bad; missing]).
  { constructor; [now exists "b.mp4"|]. constructor; [now exists "a.mp4"|].
    constructor. }
  split; [reflexivity|]. split; [|split].
  - destruct (tick_handles_every_due_row env [bad] [good] missing initial Hbad)
      as [Hstring _].
    destruct (Hstring "a.mp4" eq_refl) as [Hmissing _].
    destruct (Hmissing eq_refl) as [_ [_ [_ Hlater]]]. exact Hlater.
  - destruct (tick_handles_every_due_row env [bad; missing] [] good initial Hbad2)
      as [Hstring _].
    destruct (Hstring "b.mp4" eq_refl) as [_ Hpresent].
    destruct (Hpresent eq_refl) as [_ [_ Hlater]]. exact Hlater.
  - destruct (tick_handles_every_due_row env [bad] [good] broken initial Hbad)
      as [_ Habort].
    apply Habort. intros file. discriminate.
Defined.

(** C8, as the specification words it, fails in one point: the error text
    that is persisted for a missing file is the same for every file and names
    neither the file nor its path. *)
Lemma missing_file_error_does_not_name_the_file :
  let env := Sample.env [] in
  let stream := mkRow "j1" "no file" (JStr "a.mp4") [Sample.youtube] in
  existsSync env (path_join env (uploadDir env) "a.mp4") = false
  /\ trace (processScheduledStreams env [stream] initial)
     = [Query (SetError "failed" "Video file not found" "j1")]
  /\ includes "a.mp4" "Video file not found" = false
  /\ includes "./uploads/a.mp4" "Video file not found" = false
  /\ ~ (forall (env : Env) (stream : row) (s : state) (file : string),
          r_video_path stream = JStr file ->
          existsSync env (path_join env (uploadDir env) file) = false ->
          exists error,
            In (Query (SetError "failed" error (r_id stream)))
               (trace (processScheduledStreams env [stream] s))
            /\ includes file error = true).
Proof.
  intros env stream. repeat split.
  intros H.
  destruct (H env stream initial "a.mp4" eq_refl eq_refl) as [error [Hin Hnames]].
  destruct Hin as [Heq | []].
  injection Heq as <-. discriminate Hnames.
Qed.

(* ================================================================== *)
(** ** Shutdown *)

Section Shutdown.

(** The loop of the SIGTERM handler stops the registered streams in
    registry order and leaves the registry empty. *)
Lemma stopEach_registry (m : JsMap.t session) :
  forall s,
    activeStreams s = m ->
    NoDup (JsMap.keys m) ->
    stopEach (JsMap.keys m) s
    = mkState [] (children s)
              (trace s ++ flat_map (stopEffects (now s)) m)%list
              (spawnCalls s) (sinksOpened s) (now s) (pipes s).
Proof.
  induction m as [|[streamId sess] rest IH]; intros s Hreg Hnd.
  - simpl. rewrite app_nil_r. destruct s; simpl in *. now subst.
  - simpl. inversion Hnd as [|? ? Hnotin Hnd']; subst.
    assert (Hget : JsMap.get streamId (activeStreams s) = Some sess).
    { rewrite Hreg. simpl. now rewrite String.eqb_refl. }
    assert (Habs : JsMap.has streamId rest = false).
    { destruct (JsMap.has streamId rest) eqn:E; [|reflexivity].
      apply JsMapFacts.has_In in E. contradiction. }
    rewrite (stopStream_present streamId s sess Hget). simpl.
    rewrite IH.
    + simpl. rewrite <- app_assoc. reflexivity.
    + simpl. rewrite Hreg. now apply JsMapFacts.delete_head.
    + exact Hnd'.
Qed.

Lemma onSIGTERM_run s :
  NoDup (JsMap.keys (activeStreams s)) ->
  onSIGTERM s
  = mkState [] (children s)
            (trace s ++ flat_map (stopEffects (now s)) (activeStreams s)
                     ++ [PgEnd; RedisQuit; ProcessExit 0])%list
            (spawnCalls s) (sinksOpened s) (now s) (pipes s).
Proof.
  intros Hnd. unfold onSIGTERM.
  rewrite (stopEach_registry (activeStreams s) s eq_refl Hnd).
  unfold emit. simpl. now rewrite <- !app_assoc.
Qed.
End Shutdown.

(** X17. When no other handler runs while the SIGTERM handler does, the
    handler stops every stream that is registered when it starts: each
    one's process is sent SIGTERM, its log stream is ended and its UPDATE
    to ['stopped'] is issued, in registry order; only after the last
    [stopStream] has returned, with the registry empty, are the clients
    closed, and the exit of the worker is the last effect of all. The
    registry is one without repeated keys, as every reachable registry is
    ([reachable_NoDup]). *)
Theorem onSIGTERM_stops_every_session_before_exit :
  forall (s : state),
    NoDup (JsMap.keys (activeStreams s)) ->
    let s' := onSIGTERM s in
    trace s' = (trace s
                  ++ flat_map (fun entry =>
                                 [Kill (process (snd entry));
                                  LogEnd (logStream (snd entry));
                                  Query (SetEnded "stopped" (now s) (fst entry))])
                              (activeStreams s)
                  ++ [PgEnd; RedisQuit; ProcessExit 0])%list
    /\ activeStreams s' = []
    /\ activeStreams (stopEach (JsMap.keys (activeStreams s)) s) = []
    /\ (forall streamId sess,
          In (streamId, sess) (activeStreams s) ->
          exists earlier later,
            trace s' = (trace s ++ earlier
                          ++ [Kill (process sess); LogEnd (logStream sess);
                              Query (SetEnded "stopped" (now s) streamId)]
                          ++ later ++ [ProcessExit 0])%list).
Proof.
  intros s Hnd s'. unfold s'. rewrite (onSIGTERM_run s Hnd). simpl.
  split; [reflexivity|]. split; [reflexivity|]. split.
  { now rewrite (stopEach_registry (activeStreams s) s eq_refl Hnd). }
  intros streamId sess Hin.
  destruct (in_split _ _ Hin) as [m1 [m2 Hsplit]].
  exists (flat_map (stopEffects (now s)) m1).
  exists (flat_map (stopEffects (now s)) m2 ++ [PgEnd; RedisQuit])%list.
  rewrite Hsplit, flat_map_app. simpl.
  rewrite <- !app_assoc. simpl. reflexivity.
Qed.

Lemma onSIGTERM_stops_every_session_before_exit_witness :
  let env := Sample.env [] in
  let s := fst (startStream env "j2" "b.mp4" [Sample.twitch; Sample.custom]
             (fst (startStream env "j1" "a.mp4" [Sample.youtube] initial))) in
  JsMap.keys (activeStreams s) = ["j1"; "j2"]
  /\ trace (onSIGTERM s)
     = (trace s ++ [Kill 0; LogEnd 0; Query (SetEnded "stopped" 0 "j1");
                    Kill 1; LogEnd 1; Query (SetEnded "stopped" 0 "j2");
                    PgEnd; RedisQuit; ProcessExit 0])%list
  /\ activeStreams (onSIGTERM s) = [].
Proof.
  intros env s.
  assert (Hkeys : JsMap.keys (activeStreams s) = ["j1"; "j2"]) by reflexivity.
  assert (Hnd : NoDup (JsMap.keys (activeStreams s))).
  { rewrite Hkeys. constructor.
    - intros [H | []]. discriminate H.
    - constructor; [intros [] | constructor]. }
  destruct (onSIGTERM_stops_every_session_before_exit s Hnd) as [Htrace [Hreg _]].
  split; [exact Hkeys|]. split; [|exact Hreg].
  rewrite Htrace. reflexivity.
Defined.

(* ================================================================== *)
(** ** More about the command line and the log file name *)

Section Strings.

Lemma split_nonempty sep s : split sep s <> [].
Proof.
  destruct s as [|c rest]; simpl; [discriminate|].
  destruct (Ascii.eqb c sep); [discriminate|].
  destruct (split sep rest); discriminate.
Qed.

Lemma join_cons_nonempty sep x l :
  l <> [] -> join sep (x :: l) = x ++ sep ++ join sep l.
Proof. destruct l; [congruence | reflexivity]. Qed.

Lemma join_push c sep w ws :
  join sep (String c w :: ws) = String c (join sep (w :: ws)).
Proof. destruct ws; reflexivity. Qed.

(** [s.split(c).join(c)] is [s]. *)
Lemma join_split c s : join (String c EmptyString) (split c s) = s.
Proof.
  induction s as [|a rest IH]; [reflexivity|].
  simpl. destruct (Ascii.eqb_spec a c) as [->|Hne].
  - rewrite join_cons_nonempty by apply split_nonempty.
    rewrite IH. reflexivity.
  - destruct (split c rest) as [|w ws] eqn:Hsplit.
    + now destruct (split_nonempty c rest).
    + rewrite join_push, IH. reflexivity.
Qed.

Lemma includes_char_cons c a rest :
  a <> c ->
  includes (String c EmptyString) (String a rest)
  = includes (String c EmptyString) rest.
Proof.
  intros Hne. simpl. destruct (ascii_dec c a) as [E|_]; [congruence|].
  now destruct rest.
Qed.

Lemma replaceColonDot_clean c s :
  c = ":"%char \/ c = "."%char ->
  includes (String c EmptyString) (replaceColonDot s) = false.
Proof.
  intros Hc. induction s as [|a rest IH]; [reflexivity|].
  cbn [replaceColonDot]. rewrite includes_char_cons; [exact IH|].
  destruct (Ascii.eqb_spec a ":") as [->|H1]; simpl.
  - destruct Hc as [-> | ->]; discriminate.
  - destruct (Ascii.eqb_spec a ".") as [->|H2]; simpl.
    + destruct Hc as [-> | ->]; discriminate.
    + destruct Hc as [-> | ->]; assumption.
Qed.

Lemma replaceColonDot_length s :
  String.length (replaceColonDot s) = String.length s.
Proof. induction s as [|a rest IH]; simpl; congruence. Qed.

Lemma command_begins videoPath platforms command :
  createFFmpegCommand videoPath platforms = Ok command ->
  exists rest, command = "-re -i " ++ rest.
Proof.
  unfold createFFmpegCommand.
  destruct (List.length (outputs platforms) =? 1)%nat.
  - intros [= <-]. eexists. reflexivity.
  - destruct (1 <? List.length (outputs platforms))%nat; [|discriminate].
    intros [= <-]. eexists. reflexivity.
Qed.
End Strings.

(** X1. The timestamp in a log file name is the ISO date with each colon and
    each dot replaced by a dash, character by character, and every other
    character kept; so it has the length of the ISO date and contains
    neither a colon nor a dot. *)
Theorem generateLogFilename_timestamp_is_clean :
  forall (env : Env) (streamId : jobid) (s : state),
  exists timestamp,
    generateLogFilename env streamId s
    = path_join env (logDir env) ("stream-" ++ streamId ++ "-" ++ timestamp ++ ".log")
    /\ (forall i,
          String.get i timestamp
          = option_map (fun c => if (Ascii.eqb c ":" || Ascii.eqb c ".")%bool
                                 then "-"%char else c)
                       (String.get i (toISOString env (now s))))
    /\ String.length timestamp = String.length (toISOString env (now s))
    /\ includes ":" timestamp = false
    /\ includes "." timestamp = false.
Proof.
  intros env streamId s.
  exists (replaceColonDot (toISOString env (now s))).
  split; [reflexivity|]. split; [|split; [|split]].
  - generalize (toISOString env (now s)) as iso.
    induction iso as [|a rest IH]; intros i; [reflexivity|].
    destruct i as [|i]; simpl; [reflexivity | apply IH].
  - apply replaceColonDot_length.
  - apply replaceColonDot_clean. now left.
  - apply replaceColonDot_clean. now right.
Qed.

(** X2. Every command line the builder returns begins with [-re -i], and
    [startStream] passes [spawn] its words without the first: the arguments
    begin with [-i], and joined by spaces they are the command line without
    its leading [-re]. *)
Theorem spawn_arguments_drop_first_word :
  forall (env : Env) (streamId : jobid) (videoPath : string)
         (platforms : list platform) (s : state) (command : string),
    createFFmpegCommand videoPath platforms = Ok command ->
    spawnThrows env (spawnCalls s) = None ->
    exists rest,
      command = "-re -i " ++ rest
      /\ In (Spawn (spawnCalls s) (ffmpegPath env) ("-i" :: split " " rest))
            (trace (fst (startStream env streamId videoPath platforms s)))
      /\ join " " ("-i" :: split " " rest) = "-i " ++ rest.
Proof.
  intros env streamId videoPath platforms s command Hb Hs.
  destruct (command_begins _ _ _ Hb) as [rest ->].
  exists rest. split; [reflexivity|]. split.
  - rewrite (startStream_spawns env streamId _ _ s _ Hb Hs). simpl.
    apply in_or_app. right. right. left. reflexivity.
  - rewrite join_cons_nonempty by apply split_nonempty.
    rewrite (join_split " " rest). reflexivity.
Qed.

Lemma spawn_arguments_drop_first_word_witness :
  exists rest,
    In (Spawn 0 "ffmpeg" ("-i" :: split " " rest))
       (trace (fst (startStream (Sample.env []) "j1" "my video.mp4"
                                [Sample.youtube] initial)))
    /\ join " " ("-i" :: split " " rest) = "-i " ++ rest.
Proof.
  destruct (spawn_arguments_drop_first_word (Sample.env []) "j1" "my video.mp4"
              [Sample.youtube] initial _ eq_refl eq_refl) as [rest [_ [Hin Hjoin]]].
  exists rest. split; assumption.
Defined.



(* ================================================================== *)
(** ** More about the handlers *)

Section MoreRegistry.
Context {V : Type}.
Implicit Types (m : JsMap.t V) (k : string) (v : V).

Lemma get_set_other k k' v m :
  k' <> k -> JsMap.get k' (JsMap.set k v m) = JsMap.get k' m.
Proof.
  intros Hne. induction m as [|[k0 v0] rest IH]; simpl.
  - destruct (String.eqb_spec k k'); [congruence | reflexivity].
  - destruct (String.eqb_spec k0 k) as [->|Hk]; simpl.
    + destruct (String.eqb_spec k k'); [congruence | reflexivity].
    + destruct (k0 =? k'); [reflexivity | exact IH].
Qed.

Lemma get_delete_other k k' m :
  k' <> k -> JsMap.get k' (JsMap.delete k m) = JsMap.get k' m.
Proof.
  intros Hne. unfold JsMap.delete.
  induction m as [|[k0 v0] rest IH]; simpl; [reflexivity|].
  destruct (String.eqb_spec k0 k) as [->|Hk]; simpl.
  - destruct (String.eqb_spec k k'); [congruence | exact IH].
  - destruct (k0 =? k'); [reflexivity | exact IH].
Qed.

Lemma has_set_keeps k k' v m :
  JsMap.has k' m = true -> JsMap.has k' (JsMap.set k v m) = true.
Proof.
  intros H. apply JsMapFacts.has_In. rewrite JsMapFacts.keys_set.
  apply JsMapFacts.has_In in H.
  destruct (JsMap.has k m); [exact H | apply in_or_app; now left].
Qed.

Lemma In_set k v k' v' m :
  In (k', v') (JsMap.set k v m) -> (k' = k /\ v' = v) \/ In (k', v') m.
Proof.
  induction m as [|[k0 v0] rest IH]; simpl.
  - intros [[= <- <-]|[]]. now left.
  - destruct (k0 =? k); simpl.
    + intros [[= <- <-]|H]; [now left | right; now right].
    + intros [H|H]; [right; now left|].
      destruct (IH H) as [E|E]; [now left | right; now right].
Qed.

Lemma In_delete k k' v' m :
  In (k', v') (JsMap.delete k m) -> In (k', v') m.
Proof. unfold JsMap.delete. intros H. now apply filter_In in H. Qed.
End MoreRegistry.

Section MoreHandlers.
Variable env : Env.

Lemma queries_app tr1 tr2 : queries (tr1 ++ tr2) = (queries tr1 ++ queries tr2)%list.
Proof.
  induction tr1 as [|e tr1 IH]; [reflexivity|].
  destruct e; simpl; now rewrite IH.
Qed.

(** The three ways [startStream] can go. *)
Lemma startStream_cases streamId videoPath platforms s :
  let file := generateLogFilename env streamId s in
  let r := startStream env streamId videoPath platforms s in
  (exists message,
      snd r = false
      /\ activeStreams (fst r) = activeStreams s
      /\ sinksOpened (fst r) = S (sinksOpened s)
      /\ trace (fst r)
         = (trace s ++ [CreateWriteStream (sinksOpened s) file;
                        Query (SetError "failed" message streamId)])%list)
  \/ (exists command,
         snd r = true
         /\ activeStreams (fst r)
            = JsMap.set streamId (newSession env streamId platforms s) (activeStreams s)
         /\ sinksOpened (fst r) = S (sinksOpened s)
         /\ trace (fst r)
            = (trace s ++ [CreateWriteStream (sinksOpened s) file;
                           Spawn (spawnCalls s) (ffmpegPath env)
                                 (slice1 (split " " command));
                           Query (SetStarted "active" (startedAtRead env s) file
                                    streamId)])%list).
Proof.
  intros file r. unfold r, file.
  destruct (createFFmpegCommand videoPath platforms) as [command|message] eqn:Hb.
  - destruct (spawnThrows env (spawnCalls s)) as [message|] eqn:Hs.
    + left. exists message.
      rewrite (startStream_spawn_throws env streamId _ _ s _ _ Hb Hs). simpl. auto.
    + right. exists command.
      rewrite (startStream_spawns env streamId _ _ s _ Hb Hs). simpl. auto.
  - left. exists message.
    rewrite (startStream_build_throws env streamId _ _ s _ Hb). simpl. auto.
Qed.

Lemma startStream_one_query streamId videoPath platforms s :
  List.length (queries (trace (fst (startStream env streamId videoPath platforms s))))
  = S (List.length (queries (trace s))).
Proof.
  destruct (startStream_cases streamId videoPath platforms s)
    as [[message [_ [_ [_ Ht]]]] | [command [_ [_ [_ Ht]]]]];
    rewrite Ht, queries_app, length_app; simpl; lia.
Qed.

Lemma startStream_quiet streamId videoPath platforms s :
  forall e, In e (trace (fst (startStream env streamId videoPath platforms s))) ->
            In e (trace s)
            \/ (forall p, e <> Kill p) /\ (forall h, e <> LogEnd h).
Proof.
  intros e.
  destruct (startStream_cases streamId videoPath platforms s)
    as [[message [_ [_ [_ Ht]]]] | [command [_ [_ [_ Ht]]]]];
    rewrite Ht; intros Hin; apply in_app_or in Hin;
    (destruct Hin as [Hin|Hin]; [now left | right]);
    simpl in Hin; intuition (subst; discriminate).
Qed.

Lemma startStream_keeps_registered streamId videoPath platforms s id :
  JsMap.has id (activeStreams s) = true ->
  JsMap.has id (activeStreams (fst (startStream env streamId videoPath platforms s)))
  = true.
Proof.
  intros Hhas.
  destruct (startStream_cases streamId videoPath platforms s)
    as [[message [_ [Hr _]]] | [command [_ [Hr _]]]]; rewrite Hr.
  - exact Hhas.
  - now apply has_set_keeps.
Qed.
End MoreHandlers.

(** X3. When the command is built and [spawn] returns, [startStream] opens
    the log file, spawns the process and issues the UPDATE to ['active'], in
    this order and nothing else; the log file of the UPDATE is the file it
    opened and the one of the session it registers, and it answers [true].
    The start time of the session and the one of the UPDATE are the second
    and the third reading of the clock; both outputs of the process are
    piped into the log stream. *)
Theorem startStream_success_registers_and_persists :
  forall (env : Env) (streamId : jobid) (videoPath : string)
         (platforms : list platform) (s : state) (command : string),
    createFFmpegCommand videoPath platforms = Ok command ->
    spawnThrows env (spawnCalls s) = None ->
    let file := generateLogFilename env streamId s in
    let s' := fst (startStream env streamId videoPath platforms s) in
    snd (startStream env streamId videoPath platforms s) = true
    /\ trace s'
       = (trace s ++ [CreateWriteStream (sinksOpened s) file;
                      Spawn (spawnCalls s) (ffmpegPath env) (slice1 (split " " command));
                      Query (SetStarted "active" (nextDate env (nextDate env (now s)))
                               file streamId)])%list
    /\ JsMap.get streamId (activeStreams s')
       = Some (mkSession (spawnCalls s) file (sinksOpened s)
                         (nextDate env (now s)) platforms)
    /\ List.length (children s') = S (List.length (children s))
    /\ pipes s' = (pipes s ++ [mkPipe (spawnCalls s) Stdout (sinksOpened s);
                               mkPipe (spawnCalls s) Stderr (sinksOpened s)])%list.
Proof.
  intros env streamId videoPath platforms s command Hb Hs file s'.
  unfold s'. rewrite (startStream_spawns env streamId _ _ s _ Hb Hs). simpl.
  split; [reflexivity|]. split; [reflexivity|]. split; [|split].
  - apply JsMapFacts.get_set_same.
  - rewrite length_map, length_app. simpl. lia.
  - reflexivity.
Qed.

Lemma startStream_success_registers_and_persists_witness :
  let r := startStream (Sample.env []) "j1" "a.mp4" [Sample.youtube] initial in
  snd r = true
  /\ queries (trace (fst r))
     = [SetStarted "active" 2 "./logs/stream-j1-2024-01-01T00-00-00-000Z.log" "j1"]
  /\ option_map logFilename (JsMap.get "j1" (activeStreams (fst r)))
     = Some "./logs/stream-j1-2024-01-01T00-00-00-000Z.log"
  /\ option_map startTime (JsMap.get "j1" (activeStreams (fst r))) = Some 1%Z.
Proof.
  intros r.
  destruct (startStream_success_registers_and_persists (Sample.env []) "j1" "a.mp4"
              [Sample.youtube] initial _ eq_refl eq_refl) as [Hret [Ht [Hget _]]].
  split; [exact Hret|]. split; [|split].
  - unfold r. rewrite Ht. reflexivity.
  - unfold r. rewrite Hget. reflexivity.
  - unfold r. rewrite Hget. reflexivity.
Defined.

(** X7. Whatever its outcome, [startStream] issues exactly one UPDATE. A
    tick issues exactly one UPDATE for each row of its SELECT, and opens
    one log file for each row whose video file exists, up to the first row
    whose [video_path] is not a string; that row and the rows after it get
    none. *)
Theorem one_update_per_start_and_row :
  forall (env : Env) (s : state),
    (forall streamId videoPath platforms,
        List.length (queries (trace (fst (startStream env streamId videoPath
                                                      platforms s))))
        = S (List.length (queries (trace s))))
    /\ (forall before after,
          Forall (fun r => exists file, r_video_path r = JStr file) before ->
          after = []
          \/ (exists stream rest,
                 after = stream :: rest
                 /\ forall file, r_video_path stream <> JStr file) ->
          List.length (queries (trace (processScheduledStreams env (before ++ after) s)))
          = List.length (queries (trace s)) + List.length before
          /\ sinksOpened (processScheduledStreams env (before ++ after) s)
             = sinksOpened s
               + List.length
                   (filter (fun stream =>
                              match r_video_path stream with
                              | JStr file =>
                                  existsSync env (path_join env (uploadDir env) file)
                              | _ => false
                              end)
                           before)).
Proof.
  intros env s. split.
  - intros. apply startStream_one_query.
  - intros before after Hbefore Hafter.
    rewrite (processScheduledStreams_app env before after s Hbefore).
    assert (Hstop : forall s1, processScheduledStreams env after s1 = s1).
    { intros s1. destruct Hafter as [->|[stream [rest [-> Hpath]]]].
      - reflexivity.
      - now apply processScheduledStreams_abort. }
    rewrite Hstop. clear Hafter Hstop. revert s.
    unfold processScheduledStreams.
    induction Hbefore as [|stream before [file Hpath] _ IH]; intros s; simpl;
      [lia|].
    rewrite (processRow_string env stream s file Hpath), Hpath.
    destruct (existsSync env (path_join env (uploadDir env) file)) eqn:He; simpl.
    + destruct (IH (fst (startStream env (r_id stream)
                           (path_join env (uploadDir env) file)
                           (r_platforms stream) s))) as [Hq Hk].
      rewrite Hq, Hk, startStream_one_query.
      destruct (startStream_cases env (r_id stream)
                  (path_join env (uploadDir env) file)
                  (r_platforms stream) s)
        as [[message [_ [_ [Hsinks _]]]] | [command [_ [_ [Hsinks _]]]]];
        rewrite Hsinks; lia.
    + destruct (IH (emit (Query (SetError "failed" fileNotFound (r_id stream))) s))
        as [Hq Hk].
      rewrite Hq, Hk. simpl. rewrite queries_app, length_app. simpl. lia.
Qed.

Lemma one_update_per_start_and_row_witness :
  let env := Sample.env ["./uploads/b.mp4"] in
  let rows := [mkRow "j0" "no platform" (JStr "b.mp4") [];
               mkRow "j1" "no file" (JStr "a.mp4") [Sample.youtube]] in
  let tail := [mkRow "j2" "no path" JNull [Sample.youtube];
               mkRow "j3" "fine" (JStr "b.mp4") [Sample.youtube]] in
  List.length (queries (trace (processScheduledStreams env (rows ++ tail) initial)))
  = 2
  /\ sinksOpened (processScheduledStreams env (rows ++ tail) initial) = 1.
Proof.
  intros env rows tail.
  assert (Hrows : Forall (fun r => exists file, r_video_path r = JStr file) rows).
  { constructor; [now exists "b.mp4"|]. constructor; [now exists "a.mp4"|].
    constructor. }
  destruct (one_update_per_start_and_row env initial) as [_ H].
  destruct (H rows tail Hrows) as [Hq Hk].
  - right. eexists. eexists. split; [reflexivity|]. intros file. discriminate.
  - split; [exact Hq | exact Hk].
Defined.

(** X9. Starting or stopping one stream, or the exit handler of one stream,
    leaves the session registered for every other stream as it is. *)
Theorem other_streams_are_untouched :
  forall (env : Env) (streamId other : jobid) (s : state),
    other <> streamId ->
    (forall videoPath platforms,
        JsMap.get other
          (activeStreams (fst (startStream env streamId videoPath platforms s)))
        = JsMap.get other (activeStreams s))
    /\ JsMap.get other (activeStreams (fst (stopStream streamId s)))
       = JsMap.get other (activeStreams s)
    /\ (forall logStream code,
          JsMap.get other (activeStreams (onExit streamId logStream code s))
          = JsMap.get other (activeStreams s)).
Proof.
  intros env streamId other s Hne. split; [|split].
  - intros videoPath platforms.
    destruct (startStream_cases env streamId videoPath platforms s)
      as [[message [_ [Hr _]]] | [command [_ [Hr _]]]]; rewrite Hr.
    + reflexivity.
    + now apply get_set_other.
  - unfold stopStream, stopStream_begin.
    destruct (JsMap.has streamId (activeStreams s)); [|reflexivity].
    destruct (JsMap.get streamId (activeStreams s)); [|reflexivity].
    simpl. now apply get_delete_other.
  - intros logStream code. unfold onExit, deleteActive, onExit_begin. simpl.
    now apply get_delete_other.
Qed.

Lemma other_streams_are_untouched_witness :
  let env := Sample.env [] in
  let s := fst (startStream env "j1" "a.mp4" [Sample.youtube] initial) in
  JsMap.get "j1" (activeStreams (fst (startStream env "j2" "b.mp4" [Sample.twitch] s)))
  = JsMap.get "j1" (activeStreams s)
  /\ JsMap.get "j1" (activeStreams (fst (stopStream "j2" s)))
     = JsMap.get "j1" (activeStreams s).
Proof.
  intros env s.
  assert (Hne : "j1" <> "j2") by discriminate.
  destruct (other_streams_are_untouched env "j2" "j1" s Hne) as [Hstart [Hstop _]].
  split; [apply Hstart | exact Hstop].
Defined.

(** X13. A tick never takes a stream out of the registry, never signals a
    process and never ends a log stream. *)
Theorem tick_only_starts :
  forall (env : Env) (rows : list row) (s : state),
    let final := processScheduledStreams env rows s in
    (forall id, JsMap.has id (activeStreams s) = true ->
                JsMap.has id (activeStreams final) = true)
    /\ (forall p, In (Kill p) (trace final) -> In (Kill p) (trace s))
    /\ (forall h, In (LogEnd h) (trace final) -> In (LogEnd h) (trace s)).
Proof.
  intros env rows. unfold processScheduledStreams.
  induction rows as [|stream rows IH]; intros s; simpl; [auto|].
  destruct (processRow env stream s) as [s1|message] eqn:Hrow; [|simpl; auto].
  destruct (IH s1) as [Hreg [Hkill Hend]].
  assert (Hrow1 : (forall id, JsMap.has id (activeStreams s) = true ->
                              JsMap.has id (activeStreams s1) = true)
                  /\ (forall e, In e (trace s1) ->
                                 In e (trace s)
                                 \/ (forall p, e <> Kill p) /\ (forall h, e <> LogEnd h))).
  { unfold processRow in Hrow.
    destruct (joinUploadDir env (r_video_path stream)) as [videoPath|m];
      [|discriminate].
    destruct (negb (existsSync env videoPath)); injection Hrow as <-.
    - split; [auto|]. intros e Hin. simpl in Hin. apply in_app_or in Hin.
      destruct Hin as [Hin|[<-|[]]]; [now left | right].
      split; intros; discriminate.
    - split.
      + intros id. apply startStream_keeps_registered.
      + apply startStream_quiet. }
  destruct Hrow1 as [Hreg1 Hquiet].
  split; [|split].
  - intros id Hhas. apply Hreg, Hreg1, Hhas.
  - intros p Hin. destruct (Hquiet _ (Hkill p Hin)) as [H|[H _]];
      [exact H | now destruct (H p)].
  - intros h Hin. destruct (Hquiet _ (Hend h Hin)) as [H|[_ H]];
      [exact H | now destruct (H h)].
Qed.

Lemma tick_only_starts_witness :
  let env := Sample.env ["./uploads/b.mp4"] in
  let s := fst (startStream env "j1" "a.mp4" [Sample.youtube] initial) in
  JsMap.has "j1"
    (activeStreams (processScheduledStreams env
                      [mkRow "j1" "again" (JStr "b.mp4") [];
                       mkRow "j2" "new" (JStr "b.mp4") [Sample.twitch]]
                      s))
  = true.
Proof.
  intros env s.
  apply (proj1 (tick_only_starts env
                  [mkRow "j1" "again" (JStr "b.mp4") [];
                   mkRow "j2" "new" (JStr "b.mp4") [Sample.twitch]]
                  s)).
  reflexivity.
Defined.

(* ================================================================== *)
(** ** Races between the handlers *)

Section ChildTable.
Variable p : pid.




Lemma find_app_none (f : child -> bool) (l1 l2 : list child) :
  find f l1 = None -> find f (l1 ++ l2) = find f l2.
Proof.
  induction l1 as [|c l1 IH]; simpl; [reflexivity|].
  destruct (f c); [discriminate | exact IH].
Qed.

Lemma find_filter_other (q : pid) (cs : list child) :
  q <> p ->
  find (fun c => c_pid c =? q)%nat (filter (fun c => negb (c_pid c =? p)%nat) cs)
  = find (fun c => c_pid c =? q)%nat cs.
Proof.
  intros Hne. induction cs as [|c cs IH]; simpl; [reflexivity|].
  destruct (Nat.eqb_spec (c_pid c) p) as [E|E]; simpl.
  - destruct (Nat.eqb_spec (c_pid c) q); [lia | exact IH].
  - destruct (c_pid c =? q)%nat; [reflexivity | exact IH].
Qed.

Lemma find_attach_other (q : pid) (cs : list child) :
  q <> p ->
  find (fun c => c_pid c =? q)%nat
       (map (fun c => if (c_pid c =? p)%nat
                      then mkChild (c_pid c) (c_streamId c) (c_logStream c) true
                      else c) cs)
  = find (fun c => c_pid c =? q)%nat cs.
Proof.
  intros Hne. induction cs as [|c cs IH]; simpl; [reflexivity|].
  destruct (Nat.eqb_spec (c_pid c) p) as [E|E]; simpl.
  - destruct (Nat.eqb_spec (c_pid c) q); [lia | exact IH].
  - destruct (c_pid c =? q)%nat; [reflexivity | exact IH].
Qed.
End ChildTable.

Section Races.
Variable env : Env.

(** A further [startStream] does not change what is known of the processes
    spawned before it. *)
Lemma startStream_keeps_child q streamId videoPath platforms s command :
  q < spawnCalls s ->
  createFFmpegCommand videoPath platforms = Ok command ->
  spawnThrows env (spawnCalls s) = None ->
  findChild q (fst (startStream env streamId videoPath platforms s))
  = findChild q s.
Proof.
  intros Hq Hb Hs. rewrite (startStream_spawns env streamId _ _ s _ Hb Hs).
  unfold findChild, attachExit. simpl.
  rewrite (find_attach_other (spawnCalls s) q) by lia.
  destruct (find (fun c => c_pid c =? q)%nat (children s)) as [c|] eqn:Hf.
  - induction (children s) as [|c0 cs IH]; simpl in *; [discriminate|].
    destruct (c_pid c0 =? q)%nat; [exact Hf | now apply IH].
  - rewrite (find_app_none _ _ _ Hf). simpl.
    destruct (Nat.eqb_spec (spawnCalls s) q); [lia | reflexivity].
Qed.







Lemma samePipe_stderr_stdout p h : samePipe p Stderr (mkPipe p Stdout h) = false.
Proof. unfold samePipe. simpl. now rewrite Nat.eqb_refl. Qed.



End Races.



(** X5. When a stream is stopped and its process then ends, the exit handler
    runs after [stopStream]: the log stream is ended a second time and a
    second UPDATE follows the one to ['stopped'], so the status that is
    persisted last is the one of the exit, ['failed'] unless the exit code
    is 0. *)
Theorem stop_then_exit_persists_exit_status :
  forall (streamId : jobid) (s : state) (sess : session) (c : child)
         (code : option Z),
    JsMap.get streamId (activeStreams s) = Some sess ->
    findChild (process sess) s = Some c ->
    c_onExit c = true ->
    c_streamId c = streamId ->
    let s' := childExit (process sess) code (fst (stopStream streamId s)) in
    let status := match code with Some 0%Z => "completed" | _ => "failed" end in
    trace s'
    = (trace s ++ [Kill (process sess); LogEnd (logStream sess);
                   Query (SetEnded "stopped" (now s) streamId);
                   LogEnd (c_logStream c);
                   Query (SetEnded status (now s) streamId)])%list
    /\ queries (trace s')
       = (queries (trace s) ++ [SetEnded "stopped" (now s) streamId;
                                SetEnded status (now s) streamId])%list
    /\ JsMap.has streamId (activeStreams s') = false.
Proof.
  intros streamId s sess c code Hget Hfind Hon Hid s' status.
  assert (Hs' : s' = childExit (process sess) code (fst (stopStream streamId s)))
    by reflexivity.
  pose proof (stopStream_present streamId s sess Hget) as Hstop.
  assert (Hf1 : findChild (process sess) (fst (stopStream streamId s)) = Some c).
  { rewrite Hstop. exact Hfind. }
  rewrite (childExit_handled (process sess) code _ c Hf1 Hon) in Hs'.
  rewrite Hstop in Hs'. simpl in Hs'. rewrite Hid in Hs'.
  assert (Ht : trace s'
               = (trace s ++ [Kill (process sess); LogEnd (logStream sess);
                              Query (SetEnded "stopped" (now s) streamId);
                              LogEnd (c_logStream c);
                              Query (SetEnded status (now s) streamId)])%list).
  { rewrite Hs'. simpl. rewrite <- app_assoc. reflexivity. }
  split; [exact Ht|]. split.
  - rewrite Ht, queries_app. reflexivity.
  - rewrite Hs'. simpl. rewrite JsMapFacts.delete_delete.
    apply JsMapFacts.has_delete_same.
Qed.

Lemma stop_then_exit_persists_exit_status_witness :
  let s := fst (startStream (Sample.env []) "j1" "a.mp4" [Sample.youtube] initial) in
  queries (trace (childExit 0 None (fst (stopStream "j1" s))))
  = (queries (trace s) ++ [SetEnded "stopped" 0 "j1"; SetEnded "failed" 0 "j1"])%list.
Proof.
  intros s.
  destruct (stop_then_exit_persists_exit_status "j1" s
              (mkSession 0 "./logs/stream-j1-2024-01-01T00-00-00-000Z.log" 0 1
                         [Sample.youtube])
              (mkChild 0 "j1" 0 true) None eq_refl eq_refl eq_refl eq_refl)
    as [_ [Hq _]].
  exact Hq.
Defined.

(** X10. [stopStream] deletes the registry entry only after the [await] of
    its UPDATE. A second stop request that arrives before the first has
    resumed finds the stream registered as well: the process is signalled
    twice, the log stream ended twice and two UPDATEs to ['stopped'] are
    issued. *)
Theorem overlapping_stops_both_act :
  forall (env : Env) (streamId : jobid) (s : state) (sess : session),
    JsMap.get streamId (activeStreams s) = Some sess ->
    let once := [Kill (process sess); LogEnd (logStream sess);
                 Query (SetEnded "stopped" (now s) streamId)] in
    let s' := run env [StopBegin streamId; StopBegin streamId;
                       DeleteResume streamId; DeleteResume streamId] s in
    snd (stopStream_begin streamId s) = true
    /\ snd (stopStream_begin streamId (fst (stopStream_begin streamId s))) = true
    /\ trace s' = (trace s ++ once ++ once)%list
    /\ activeStreams s' = JsMap.delete streamId (activeStreams s).
Proof.
  intros env streamId s sess Hget once s'.
  assert (Hhas : JsMap.has streamId (activeStreams s) = true)
    by apply (JsMapFacts.get_has _ _ _ Hget).
  unfold s', run. simpl. unfold stopStream_begin.
  rewrite Hhas, Hget. simpl. rewrite Hhas, Hget. simpl.
  split; [reflexivity|]. split; [reflexivity|]. split.
  - unfold once. rewrite <- !app_assoc. reflexivity.
  - apply JsMapFacts.delete_delete.
Qed.

Lemma overlapping_stops_both_act_witness :
  let env := Sample.env [] in
  let s := fst (startStream env "j1" "a.mp4" [Sample.youtube] initial) in
  queries (trace (run env [StopBegin "j1"; StopBegin "j1";
                           DeleteResume "j1"; DeleteResume "j1"] s))
  = (queries (trace s) ++ [SetEnded "stopped" 0 "j1"; SetEnded "stopped" 0 "j1"])%list.
Proof.
  intros env s.
  destruct (overlapping_stops_both_act env "j1" s
              (mkSession 0 "./logs/stream-j1-2024-01-01T00-00-00-000Z.log" 0 1
                         [Sample.youtube]) eq_refl) as [_ [_ [Ht _]]].
  rewrite Ht, queries_app. reflexivity.
Defined.

(* ================================================================== *)
(** ** Registry, processes and trace agree *)

Section Consistency.
Variable env : Env.

Lemma opened_app h tr more : opened h tr -> opened h (tr ++ more).
Proof. intros [file H]. exists file. apply in_or_app. now left. Qed.

Lemma spawned_in_app p tr more : In p (spawned tr) -> In p (spawned (tr ++ more)).
Proof. intros H. rewrite spawned_app. apply in_or_app. now left. Qed.

Lemma sessionStarted_app streamId sess tr more :
  sessionStarted streamId sess tr -> sessionStarted streamId sess (tr ++ more).
Proof.
  intros [H1 [H2 [started_at H3]]]. split; [|split].
  - now apply spawned_in_app.
  - apply in_or_app. now left.
  - exists started_at. apply in_or_app. now left.
Qed.

(** How [consistent] carries over to a state whose trace is longer. *)
Lemma consistent_grow s s' more :
  consistent s ->
  trace s' = (trace s ++ more)%list ->
  (forall streamId sess,
      In (streamId, sess) (activeStreams s') ->
      In (streamId, sess) (activeStreams s)
      \/ sessionStarted streamId sess (trace s')) ->
  (forall c, In c (children s') ->
             (exists c0, In c0 (children s) /\ c_pid c0 = c_pid c
                         /\ c_logStream c0 = c_logStream c)
             \/ (In (c_pid c) (spawned (trace s'))
                 /\ opened (c_logStream c) (trace s'))) ->
  (forall p, In (Kill p) more -> In p (spawned (trace s'))) ->
  (forall h, In (LogEnd h) more -> opened h (trace s')) ->
  (forall pp, In pp (pipes s') ->
              In pp (pipes s) \/ opened (pipe_to pp) (trace s')) ->
  consistent s'.
Proof.
  intros [Ha [Hb [Hc [Hd He]]]] Ht Hreg Hch Hkill Hend Hpipes.
  split; [|split; [|split; [|split]]].
  - intros streamId sess Hin. destruct (Hreg _ _ Hin) as [H|H]; [|exact H].
    rewrite Ht. now apply sessionStarted_app, Ha.
  - intros c Hin. destruct (Hch _ Hin) as [[c0 [H0 [Hp Hl]]]|H]; [|exact H].
    destruct (Hb _ H0) as [H1 H2]. rewrite <- Hp, <- Hl, Ht.
    split; [now apply spawned_in_app | now apply opened_app].
  - intros p Hin. rewrite Ht in Hin. apply in_app_or in Hin.
    destruct Hin as [Hin|Hin]; [|now apply Hkill].
    rewrite Ht. now apply spawned_in_app, Hc.
  - intros h Hin. rewrite Ht in Hin. apply in_app_or in Hin.
    destruct Hin as [Hin|Hin]; [|now apply Hend].
    rewrite Ht. now apply opened_app, Hd.
  - intros pp Hin. destruct (Hpipes _ Hin) as [H|H]; [|exact H].
    rewrite Ht. now apply opened_app, He.
Qed.

Arguments consistent_grow {s s' more} _ _ _ _ _ _ _.

Ltac same_child := intros c Hc; left; exists c; auto.
Ltac same_pipe := intros pp Hpp; now left.
Ltac none_in := intros ? Hin; simpl in Hin; intuition discriminate.

Lemma step_consistent ev s : consistent s -> consistent (step env ev s).
Proof.
  intros Hcons.
  destruct ev as [streamId videoPath platforms | k | streamId | streamId
                 | p code | p from | streamId | t | | |]; unfold step.
  - destruct (startStream_begin_fails env streamId videoPath platforms s)
      as [[command [Hb Hs]]|[message [calls Hf]]].
    + rewrite (startStream_begin_spawns env _ _ _ _ _ Hb Hs).
      unfold fst.
      apply (consistent_grow
               (more := [CreateWriteStream (sinksOpened s)
                           (generateLogFilename env streamId s);
                         Spawn (spawnCalls s) (ffmpegPath env)
                               (slice1 (split " " command));
                         Query (SetStarted "active" (startedAtRead env s)
                                  (generateLogFilename env streamId s) streamId)])
               Hcons).
      * reflexivity.
      * cbn [activeStreams trace]. intros id sess Hin. apply In_set in Hin.
        destruct Hin as [[-> ->]|Hin]; [right | now left].
        unfold sessionStarted, newSession. cbn [process logFilename logStream].
        split; [|split].
        -- rewrite spawned_app. apply in_or_app. right. simpl. now left.
        -- apply in_or_app. right. now left.
        -- exists (startedAtRead env s). apply in_or_app. right. right. right.
           now left.
      * cbn [children trace]. intros c Hc. apply in_app_or in Hc.
        destruct Hc as [Hc|[<-|[]]]; [left; exists c; auto | right].
        cbn [c_pid c_logStream]. split.
        -- rewrite spawned_app. apply in_or_app. right. simpl. now left.
        -- eexists. apply in_or_app. right. now left.
      * none_in.
      * none_in.
      * cbn [pipes trace]. intros pp Hpp. apply in_app_or in Hpp.
        destruct Hpp as [Hpp|[<-|[<-|[]]]]; [now left | right | right];
          cbn [pipe_to]; eexists; apply in_or_app; right; now left.
    + rewrite Hf. unfold fst.
      apply (consistent_grow (more := [CreateWriteStream (sinksOpened s)
                                         (generateLogFilename env streamId s);
                                       Query (SetError "failed" message streamId)])
               Hcons).
      * reflexivity.
      * cbn [activeStreams]. auto.
      * same_child.
      * none_in.
      * none_in.
      * same_pipe.
  - destruct k as [p|]; simpl; [|exact Hcons].
    apply (consistent_grow (more := []) Hcons).
    + simpl. now rewrite app_nil_r.
    + simpl. auto.
    + simpl. intros c Hc. apply in_map_iff in Hc. destruct Hc as [c0 [<- H0]].
      left. exists c0. destruct (c_pid c0 =? p)%nat; auto.
    + none_in.
    + none_in.
    + same_pipe.
  - unfold stopStream_begin.
    destruct (JsMap.has streamId (activeStreams s)); [|exact Hcons].
    destruct (JsMap.get streamId (activeStreams s)) as [sess|] eqn:Hget;
      [|exact Hcons].
    destruct Hcons as [Ha Hrest].
    destruct (Ha _ _ (JsMapFacts.get_In _ _ _ Hget)) as [Hsp [Hop _]].
    apply (consistent_grow
             (more := [Kill (process sess); LogEnd (logStream sess);
                       Query (SetEnded "stopped" (now s) streamId)])
             (conj Ha Hrest)).
    + simpl. now rewrite <- !app_assoc.
    + simpl. auto.
    + same_child.
    + intros q Hin. simpl in Hin.
      destruct Hin as [[= <-]|[H|[H|[]]]]; try discriminate.
      simpl. now apply spawned_in_app, spawned_in_app, spawned_in_app.
    + intros h Hin. simpl in Hin.
      destruct Hin as [H|[[= <-]|[H|[]]]]; try discriminate.
      simpl. apply opened_app, opened_app, opened_app. eexists. exact Hop.
    + same_pipe.
  - apply (consistent_grow (more := []) Hcons).
    + simpl. now rewrite app_nil_r.
    + simpl. intros id sess Hin. left. now apply In_delete in Hin.
    + same_child.
    + none_in.
    + none_in.
    + same_pipe.
  - unfold childExit_begin.
    destruct (findChild p s) as [c|] eqn:Hfind; [|exact Hcons].
    apply find_some in Hfind. destruct Hfind as [Hc _].
    assert (Hkept : forall c', In c' (filter (fun c0 => negb (c_pid c0 =? p)%nat)
                                             (children s)) ->
                               (exists c0, In c0 (children s) /\ c_pid c0 = c_pid c'
                                           /\ c_logStream c0 = c_logStream c')
                               \/ False).
    { intros c' Hin. apply filter_In in Hin. left. exists c'. tauto. }
    destruct (c_onExit c).
    + destruct Hcons as [Ha [Hb Hrest]]. destruct (Hb _ Hc) as [_ Hop].
      apply (consistent_grow
               (more := [LogEnd (c_logStream c);
                         Query (SetEnded (exitStatus code) (now s) (c_streamId c))])
               (conj Ha (conj Hb Hrest))).
      * simpl. now rewrite <- !app_assoc.
      * simpl. auto.
      * simpl. intros c' Hin. destruct (Hkept c' Hin) as [H|[]]. now left.
      * none_in.
      * intros h Hin. simpl in Hin.
        destruct Hin as [[= <-]|[H|[]]]; try discriminate.
        simpl. now apply opened_app, opened_app.
      * same_pipe.
    + apply (consistent_grow (more := []) Hcons).
      * simpl. now rewrite app_nil_r.
      * simpl. auto.
      * simpl. intros c' Hin. destruct (Hkept c' Hin) as [H|[]]. now left.
      * none_in.
      * none_in.
      * same_pipe.
  - unfold pipeEnd.
    destruct (find (samePipe p from) (pipes s)) as [pp|] eqn:Hfind;
      [|exact Hcons].
    apply find_some in Hfind. destruct Hfind as [Hpp _].
    destruct Hcons as [Ha [Hb [Hk [Hd He]]]]. pose proof (He _ Hpp) as Hop.
    apply (consistent_grow (more := [LogEnd (pipe_to pp)])
             (conj Ha (conj Hb (conj Hk (conj Hd He))))).
    + reflexivity.
    + simpl. auto.
    + same_child.
    + none_in.
    + intros h Hin. simpl in Hin. destruct Hin as [[= <-]|[]].
      simpl. now apply opened_app.
    + simpl. intros pp' Hin. apply filter_In in Hin. left. tauto.
  - apply (consistent_grow
             (more := [Query (SetError "failed" fileNotFound streamId)]) Hcons);
      [reflexivity | simpl; auto | same_child | none_in | none_in | same_pipe].
  - apply (consistent_grow (more := []) Hcons);
      [simpl; now rewrite app_nil_r | simpl; auto | same_child | none_in | none_in
       | same_pipe].
  - apply (consistent_grow (more := [PgEnd]) Hcons);
      [reflexivity | simpl; auto | same_child | none_in | none_in | same_pipe].
  - apply (consistent_grow (more := [RedisQuit]) Hcons);
      [reflexivity | simpl; auto | same_child | none_in | none_in | same_pipe].
  - apply (consistent_grow (more := [ProcessExit 0]) Hcons);
      [reflexivity | simpl; auto | same_child | none_in | none_in | same_pipe].
Qed.

Lemma reachable_consistent s : reachable env s -> consistent s.
Proof.
  induction 1 as [|s ev _ IH]; [|now apply step_consistent].
  repeat split; simpl; intros; contradiction.
Qed.
End Consistency.

(** X6. In every reachable state, each session of the registry was started
    by the worker: its process was spawned, its log file opened, and an
    UPDATE to ['active'] with its log file was issued for its stream. The
    [started_at] of that UPDATE is a clock reading of its own (line 106),
    taken after the [startTime] of the session (line 99). *)
Theorem registered_sessions_were_started :
  forall (env : Env) (s : state) (streamId : jobid) (sess : session),
    reachable env s ->
    JsMap.get streamId (activeStreams s) = Some sess ->
    In (process sess) (spawned (trace s))
    /\ In (CreateWriteStream (logStream sess) (logFilename sess)) (trace s)
    /\ exists started_at,
        In (Query (SetStarted "active" started_at (logFilename sess) streamId))
           (trace s).
Proof.
  intros env s streamId sess Hr Hget.
  destruct (reachable_consistent env s Hr) as [Ha _].
  apply (Ha streamId sess). now apply JsMapFacts.get_In.
Qed.

Lemma registered_sessions_were_started_witness :
  let env := Sample.env [] in
  let s := fst (stopStream "j2"
             (fst (startStream env "j1" "a.mp4" [Sample.youtube]
                (fst (startStream env "j2" "b.mp4" [Sample.twitch] initial))))) in
  In 1 (spawned (trace s))
  /\ In (CreateWriteStream 1 "./logs/stream-j1-2024-01-01T00-00-00-000Z.log") (trace s)
  /\ exists started_at,
      In (Query (SetStarted "active" started_at
                   "./logs/stream-j1-2024-01-01T00-00-00-000Z.log" "j1"))
         (trace s).
Proof.
  intros env s.
  assert (Hr : reachable env s).
  { apply reachable_stopStream, reachable_startStream, reachable_startStream,
      reach_initial. }
  exact (registered_sessions_were_started env s "j1"
           (mkSession 1 "./logs/stream-j1-2024-01-01T00-00-00-000Z.log" 1 1
                      [Sample.youtube]) Hr eq_refl).
Defined.

(** X11. In every reachable state, the worker has sent SIGTERM only to
    processes it spawned itself, and has ended only log streams it opened. *)
Theorem only_own_processes_and_logs_are_closed :
  forall (env : Env) (s : state),
    reachable env s ->
    (forall p, In (Kill p) (trace s) -> In p (spawned (trace s)))
    /\ (forall h, In (LogEnd h) (trace s) ->
                  exists file, In (CreateWriteStream h file) (trace s)).
Proof.
  intros env s Hr.
  destruct (reachable_consistent env s Hr) as [_ [_ [Hc [Hd _]]]].
  split; [exact Hc | exact Hd].
Qed.

Lemma only_own_processes_and_logs_are_closed_witness :
  let env := Sample.env [] in
  let s := onSIGTERM (fst (startStream env "j1" "a.mp4" [Sample.youtube] initial)) in
  In (Kill 0) (trace s) /\ In 0 (spawned (trace s)).
Proof.
  intros env s.
  assert (Hr : reachable env s).
  { apply reachable_onSIGTERM, reachable_startStream, reach_initial. }
  destruct (only_own_processes_and_logs_are_closed env s Hr) as [Hk _].
  assert (Hin : In (Kill 0) (trace s)).
  { simpl. right. right. right. now left. }
  split; [exact Hin | exact (Hk 0 Hin)].
Defined.

(** X14. The exit handler deletes the registry entry of its stream id,
    whichever session holds it. After two starts of one stream, the exit of
    the first process takes the session of the second out of the registry:
    the second process keeps running, but [stopStream] no longer finds the
    stream. *)
Theorem exit_of_replaced_process_unregisters_its_successor :
  forall (env : Env) (streamId : jobid) (videoPath1 videoPath2 : string)
         (platforms1 platforms2 : list platform) (s : state)
         (command1 command2 : string) (code : option Z),
    reachable env s ->
    createFFmpegCommand videoPath1 platforms1 = Ok command1 ->
    createFFmpegCommand videoPath2 platforms2 = Ok command2 ->
    spawnThrows env (spawnCalls s) = None ->
    spawnThrows env (S (spawnCalls s)) = None ->
    let s1 := fst (startStream env streamId videoPath1 platforms1 s) in
    let s2 := fst (startStream env streamId videoPath2 platforms2 s1) in
    let s3 := childExit (spawnCalls s) code s2 in
    JsMap.get streamId (activeStreams s2) = Some (newSession env streamId platforms2 s1)
    /\ JsMap.has streamId (activeStreams s3) = false
    /\ findChild (S (spawnCalls s)) s3
       = Some (mkChild (S (spawnCalls s)) streamId (S (sinksOpened s)) true)
    /\ stopStream streamId s3 = (s3, false).
Proof.
  intros env streamId videoPath1 videoPath2 platforms1 platforms2 s
         command1 command2 code Hr Hb1 Hb2 Hs1 Hs2 s1 s2 s3.
  assert (Hcalls : spawnCalls s1 = S (spawnCalls s)).
  { unfold s1. now rewrite (startStream_spawns env streamId _ _ s _ Hb1 Hs1). }
  assert (Hsinks : sinksOpened s1 = S (sinksOpened s)).
  { unfold s1. now rewrite (startStream_spawns env streamId _ _ s _ Hb1 Hs1). }
  assert (Hr1 : reachable env s1) by now apply reachable_startStream.
  rewrite <- Hcalls in Hs2.
  assert (H0 : findChild (spawnCalls s) s2
               = Some (mkChild (spawnCalls s) streamId (sinksOpened s) true)).
  { unfold s2.
    rewrite (startStream_keeps_child env (spawnCalls s) streamId
               videoPath2 platforms2 s1 command2);
      [|lia | exact Hb2 | exact Hs2].
    apply (startStream_attaches_handler env streamId _ _ s _
             (reachable_pids env s Hr) Hb1 Hs1). }
  assert (H1 : findChild (S (spawnCalls s)) s2
               = Some (mkChild (S (spawnCalls s)) streamId (S (sinksOpened s)) true)).
  { rewrite <- Hcalls, <- Hsinks.
    apply (startStream_attaches_handler env streamId _ _ s1 _
             (reachable_pids env s1 Hr1) Hb2 Hs2). }
  assert (Hs3 : s3 = childExit (spawnCalls s) code s2) by reflexivity.
  rewrite (childExit_handled (spawnCalls s) code s2 _ H0 eq_refl) in Hs3.
  simpl in Hs3.
  assert (Hhas : JsMap.has streamId (activeStreams s3) = false).
  { rewrite Hs3. simpl. apply JsMapFacts.has_delete_same. }
  split.
  { unfold s2. rewrite (startStream_spawns env streamId _ _ s1 _ Hb2 Hs2). simpl.
    apply JsMapFacts.get_set_same. }
  split; [exact Hhas|]. split.
  - rewrite Hs3. unfold findChild. simpl.
    rewrite (find_filter_other (spawnCalls s) (S (spawnCalls s))) by lia.
    exact H1.
  - now apply stopStream_absent.
Qed.

Lemma exit_of_replaced_process_unregisters_its_successor_witness :
  let env := Sample.env [] in
  let s2 := fst (startStream env "j1" "b.mp4" [Sample.twitch]
              (fst (startStream env "j1" "a.mp4" [Sample.youtube] initial))) in
  let s3 := childExit 0 (Some 0%Z) s2 in
  JsMap.has "j1" (activeStreams s3) = false
  /\ findChild 1 s3 = Some (mkChild 1 "j1" 1 true)
  /\ stopStream "j1" s3 = (s3, false).
Proof.
  intros env s2 s3.
  destruct (exit_of_replaced_process_unregisters_its_successor env "j1"
              "a.mp4" "b.mp4" [Sample.youtube] [Sample.twitch] initial _ _
              (Some 0%Z) (reach_initial env) eq_refl eq_refl eq_refl eq_refl)
    as [_ [Hhas [Hchild Hstop]]].
  split; [exact Hhas|]. split; [exact Hchild | exact Hstop].
Defined.

(* ================================================================== *)
(** ** Startup *)

(** X12. At startup the worker connects to PostgreSQL, then to Redis, and
    only when both succeeded schedules the tick and subscribes to the two
    channels, in this order. It ends with [process.exit(1)] exactly when one
    of these four calls fails, and the exit is then its last action: after a
    failed PostgreSQL connection Redis is not contacted, after a failed Redis
    connection nothing is scheduled or subscribed, and a failed subscription
    ends the worker after the calls made so far. *)
Theorem startup_connects_before_it_listens :
  forall (w : Startup.world),
    let failed :=
      Startup.pgConnectFails w <> None
      \/ Startup.redisConnectFails w <> None
      \/ Startup.subscribeStartFails w <> None
      \/ Startup.subscribeStopFails w <> None in
    (forall a, In a (Startup.main w) ->
               (exists e, a = Startup.CronSchedule e)
               \/ (exists ch, a = Startup.Subscribe ch) ->
               Startup.pgConnectFails w = None
               /\ Startup.redisConnectFails w = None)
    /\ (Startup.pgConnectFails w <> None ->
        Startup.main w = [Startup.PgConnect; Startup.Exit 1])
    /\ (Startup.pgConnectFails w = None ->
        Startup.redisConnectFails w <> None ->
        Startup.main w = [Startup.PgConnect; Startup.RedisConnect; Startup.Exit 1])
    /\ (Startup.pgConnectFails w = None ->
        Startup.redisConnectFails w = None ->
        Startup.subscribeStartFails w <> None ->
        Startup.main w
        = [Startup.PgConnect; Startup.RedisConnect;
           Startup.CronSchedule "* * * * *";
           Startup.Subscribe "stream:start"; Startup.Exit 1])
    /\ (Startup.pgConnectFails w = None ->
        Startup.redisConnectFails w = None ->
        Startup.subscribeStartFails w = None ->
        Startup.subscribeStopFails w <> None ->
        Startup.main w
        = [Startup.PgConnect; Startup.RedisConnect;
           Startup.CronSchedule "* * * * *";
           Startup.Subscribe "stream:start"; Startup.Subscribe "stream:stop";
           Startup.Exit 1])
    /\ (failed <-> In (Startup.Exit 1) (Startup.main w))
    /\ (forall code, In (Startup.Exit code) (Startup.main w) ->
                     code = 1%Z /\ failed
                     /\ exists before,
                         Startup.main w = (before ++ [Startup.Exit 1])%list)
    /\ (~ failed ->
        Startup.main w
        = [Startup.PgConnect; Startup.RedisConnect;
           Startup.CronSchedule "* * * * *";
           Startup.Subscribe "stream:start"; Startup.Subscribe "stream:stop"]).
Proof.
  intros [pg rd st sp] failed. unfold failed. simpl.
  unfold Startup.main, Startup.connectDatabases. simpl.
  split; [|split; [|split; [|split; [|split; [|split; [|split]]]]]].
  - intros a Hin Hkind.
    destruct pg as [m|]; [|destruct rd as [m|]]; simpl in Hin.
    + destruct Hkind as [[e ->]|[ch ->]];
        destruct Hin as [H|[H|[]]]; discriminate.
    + destruct Hkind as [[e ->]|[ch ->]];
        destruct Hin as [H|[H|[H|[]]]]; discriminate.
    + auto.
  - destruct pg; [reflexivity | congruence].
  - intros -> Hrd. destruct rd; [reflexivity | congruence].
  - intros -> -> Hst. destruct st; [reflexivity | congruence].
  - intros -> -> -> Hsp. destruct sp; [reflexivity | congruence].
  - split.
    + intros Hfailed.
      destruct pg as [m|]; [simpl; tauto|].
      destruct rd as [m|]; [simpl; tauto|].
      destruct st as [m|]; [simpl; tauto|].
      destruct sp as [m|]; [simpl; tauto|].
      destruct Hfailed as [H|[H|[H|H]]]; congruence.
    + intros Hin.
      destruct pg as [m|]; [left; discriminate|].
      destruct rd as [m|]; [right; left; discriminate|].
      destruct st as [m|]; [right; right; left; discriminate|].
      destruct sp as [m|]; [right; right; right; discriminate|].
      simpl in Hin. exfalso. intuition discriminate.
  - intros code Hin.
    destruct pg as [m|]; [|destruct rd as [m|];
                           [|destruct st as [m|]; [|destruct sp as [m|]]]];
      simpl in Hin.
    + destruct Hin as [H|[[= <-]|[]]]; [discriminate|].
      split; [reflexivity|]. split; [left; discriminate|].
      now exists [Startup.PgConnect].
    + destruct Hin as [H|[H|[[= <-]|[]]]]; try discriminate.
      split; [reflexivity|]. split; [right; left; discriminate|].
      now exists [Startup.PgConnect; Startup.RedisConnect].
    + destruct Hin as [H|[H|[H|[H|[[= <-]|[]]]]]]; try discriminate.
      split; [reflexivity|]. split; [right; right; left; discriminate|].
      now exists [Startup.PgConnect; Startup.RedisConnect;
                  Startup.CronSchedule "* * * * *"; Startup.Subscribe "stream:start"].
    + destruct Hin as [H|[H|[H|[H|[H|[[= <-]|[]]]]]]]; try discriminate.
      split; [reflexivity|]. split; [right; right; right; discriminate|].
      now exists [Startup.PgConnect; Startup.RedisConnect;
                  Startup.CronSchedule "* * * * *"; Startup.Subscribe "stream:start";
                  Startup.Subscribe "stream:stop"].
    + destruct Hin as [H|[H|[H|[H|[H|[]]]]]]; discriminate.
  - intros Hnot.
    destruct pg as [m|]; [exfalso; apply Hnot; left; discriminate|].
    destruct rd as [m|]; [exfalso; apply Hnot; right; left; discriminate|].
    destruct st as [m|]; [exfalso; apply Hnot; right; right; left; discriminate|].
    destruct sp as [m|]; [|reflexivity].
    exfalso. apply Hnot. right. right. right. discriminate.
Qed.

Lemma startup_connects_before_it_listens_witness :
  Startup.main (Startup.mkWorld None (Some "ECONNREFUSED") None None)
  = [Startup.PgConnect; Startup.RedisConnect; Startup.Exit 1]
  /\ Startup.main (Startup.mkWorld (Some "ECONNREFUSED") None None None)
     = [Startup.PgConnect; Startup.Exit 1]
  /\ In (Startup.Exit 1)
        (Startup.main (Startup.mkWorld None None None (Some "subscribe failed"))).
Proof.
  split; [|split].
  - apply (proj1 (proj2 (proj2 (startup_connects_before_it_listens
                           (Startup.mkWorld None (Some "ECONNREFUSED") None None)))));
      [reflexivity | discriminate].
  - apply (proj1 (proj2 (startup_connects_before_it_listens
                           (Startup.mkWorld (Some "ECONNREFUSED") None None None)))).
    discriminate.
  - apply (proj1 (proj1 (proj2 (proj2 (proj2 (proj2 (proj2
             (startup_connects_before_it_listens
                (Startup.mkWorld None None None (Some "subscribe failed")))))))))).
    right. right. right. discriminate.
Defined.

(* ================================================================== *)
(** ** Log streams of failed starts *)

Section LogStreams.
Variable env : Env.

Lemma handlesBelow_next s s' :
  handlesBelow s ->
  sinksOpened s <= sinksOpened s' ->
  (forall streamId sess,
      In (streamId, sess) (activeStreams s') ->
      In (streamId, sess) (activeStreams s) \/ logStream sess < sinksOpened s') ->
  (forall c, In c (children s') ->
             (exists c0, In c0 (children s) /\ c_logStream c0 = c_logStream c)
             \/ c_logStream c < sinksOpened s') ->
  (forall h, In (LogEnd h) (trace s') ->
             In (LogEnd h) (trace s) \/ h < sinksOpened s') ->
  (forall pp, In pp (pipes s') ->
              In pp (pipes s) \/ pipe_to pp < sinksOpened s') ->
  handlesBelow s'.
Proof.
  intros [Ha [Hb [Hc Hd]]] Hle Hreg Hch Hend Hpipes. split; [|split; [|split]].
  - intros id sess Hin. destruct (Hreg _ _ Hin) as [H|H]; [|exact H].
    specialize (Ha _ _ H). lia.
  - intros c Hin. destruct (Hch _ Hin) as [[c0 [H0 <-]]|H]; [|exact H].
    specialize (Hb _ H0). lia.
  - intros h Hin. destruct (Hend _ Hin) as [H|H]; [|exact H].
    specialize (Hc _ H). lia.
  - intros pp Hin. destruct (Hpipes _ Hin) as [H|H]; [|exact H].
    specialize (Hd _ H). lia.
Qed.

Lemma abandoned_next h s s' :
  abandoned h s ->
  sinksOpened s <= sinksOpened s' ->
  (forall streamId sess,
      In (streamId, sess) (activeStreams s') ->
      In (streamId, sess) (activeStreams s) \/ logStream sess <> h) ->
  (forall c, In c (children s') ->
             (exists c0, In c0 (children s) /\ c_logStream c0 = c_logStream c)
             \/ c_logStream c <> h) ->
  (forall pp, In pp (pipes s') -> In pp (pipes s) \/ pipe_to pp <> h) ->
  (forall h', In (LogEnd h') (trace s') ->
              In (LogEnd h') (trace s) \/ h' <> h) ->
  abandoned h s'.
Proof.
  intros [Hlt [Ha [Hb [Hp Hc]]]] Hle Hreg Hch Hpipes Hend.
  split; [lia|]. split; [|split; [|split]].
  - intros id sess Hin. destruct (Hreg _ _ Hin) as [H|H]; [|exact H].
    now apply (Ha _ _ H).
  - intros c Hin. destruct (Hch _ Hin) as [[c0 [H0 <-]]|H]; [|exact H].
    now apply Hb.
  - intros pp Hin. destruct (Hpipes _ Hin) as [H|H]; [|exact H].
    now apply Hp.
  - intros Hin. destruct (Hend _ Hin) as [H|H]; [now apply Hc | now apply H].
Qed.

(** A segment that opens no log file and ends none. *)
Lemma quiet_log_streams s s' :
  sinksOpened s' = sinksOpened s ->
  (forall streamId sess,
      In (streamId, sess) (activeStreams s') -> In (streamId, sess) (activeStreams s)) ->
  (forall c, In c (children s') ->
             exists c0, In c0 (children s) /\ c_logStream c0 = c_logStream c) ->
  (forall pp, In pp (pipes s') -> In pp (pipes s)) ->
  (forall h, In (LogEnd h) (trace s') ->
             In (LogEnd h) (trace s)
             \/ (exists streamId sess,
                    In (streamId, sess) (activeStreams s) /\ logStream sess = h)
             \/ (exists c, In c (children s) /\ c_logStream c = h)
             \/ (exists pp, In pp (pipes s) /\ pipe_to pp = h)) ->
  sinksOpened s <= sinksOpened s'
  /\ (forall streamId sess,
        In (streamId, sess) (activeStreams s') ->
        In (streamId, sess) (activeStreams s) \/ logStream sess = sinksOpened s)
  /\ (forall c, In c (children s') ->
                (exists c0, In c0 (children s) /\ c_logStream c0 = c_logStream c)
                \/ c_logStream c = sinksOpened s)
  /\ (forall pp, In pp (pipes s') ->
                 In pp (pipes s) \/ pipe_to pp = sinksOpened s)
  /\ (forall h, In (LogEnd h) (trace s') ->
                In (LogEnd h) (trace s)
                \/ (exists streamId sess,
                       In (streamId, sess) (activeStreams s) /\ logStream sess = h)
                \/ (exists c, In c (children s) /\ c_logStream c = h)
                \/ (exists pp, In pp (pipes s) /\ pipe_to pp = h))
  /\ (sinksOpened s < sinksOpened s' \/
      ((forall streamId sess,
           In (streamId, sess) (activeStreams s') ->
           In (streamId, sess) (activeStreams s))
       /\ (forall c, In c (children s') ->
                     exists c0, In c0 (children s) /\ c_logStream c0 = c_logStream c)
       /\ (forall pp, In pp (pipes s') -> In pp (pipes s)))).
Proof.
  intros Hsinks Hreg Hch Hpipes Hend.
  split; [lia|]. split; [auto|]. split; [auto|]. split; [auto|].
  split; [exact Hend|]. right. auto.
Qed.

Ltac same_children := intros c Hc; now exists c.
Ltac no_new_end :=
  intros h Hin; cbn [trace emit] in Hin; apply in_app_or in Hin;
  destruct Hin as [Hin|Hin]; [now left | simpl in Hin; intuition discriminate].

(** What one segment does to registry, processes, pipes, counters and ended
    log streams: the facts both invariants need. *)
Lemma step_log_streams ev s :
  sinksOpened s <= sinksOpened (step env ev s)
  /\ (forall streamId sess,
        In (streamId, sess) (activeStreams (step env ev s)) ->
        In (streamId, sess) (activeStreams s) \/ logStream sess = sinksOpened s)
  /\ (forall c, In c (children (step env ev s)) ->
                (exists c0, In c0 (children s) /\ c_logStream c0 = c_logStream c)
                \/ c_logStream c = sinksOpened s)
  /\ (forall pp, In pp (pipes (step env ev s)) ->
                 In pp (pipes s) \/ pipe_to pp = sinksOpened s)
  /\ (forall h, In (LogEnd h) (trace (step env ev s)) ->
                In (LogEnd h) (trace s)
                \/ (exists streamId sess,
                       In (streamId, sess) (activeStreams s) /\ logStream sess = h)
                \/ (exists c, In c (children s) /\ c_logStream c = h)
                \/ (exists pp, In pp (pipes s) /\ pipe_to pp = h))
  /\ (sinksOpened s < sinksOpened (step env ev s) \/
      ((forall streamId sess,
           In (streamId, sess) (activeStreams (step env ev s)) ->
           In (streamId, sess) (activeStreams s))
       /\ (forall c, In c (children (step env ev s)) ->
                     exists c0, In c0 (children s) /\ c_logStream c0 = c_logStream c)
       /\ (forall pp, In pp (pipes (step env ev s)) -> In pp (pipes s)))).
Proof.
  destruct ev as [streamId videoPath platforms | k | streamId | streamId
                 | p code | p from | streamId | t | | |]; unfold step.
  - destruct (startStream_begin_fails env streamId videoPath platforms s)
      as [[command [Hb Hs]]|[message [calls Hf]]].
    + rewrite (startStream_begin_spawns env _ _ _ _ _ Hb Hs). unfold fst.
      cbn [activeStreams children trace sinksOpened pipes].
      split; [lia|]. split.
      { intros id sess Hin. apply In_set in Hin.
        destruct Hin as [[-> ->]|Hin]; [now right | now left]. }
      split.
      { intros c Hc. apply in_app_or in Hc.
        destruct Hc as [Hc|[<-|[]]]; [left; now exists c | now right]. }
      split.
      { intros pp Hpp. apply in_app_or in Hpp.
        destruct Hpp as [Hpp|[<-|[<-|[]]]]; [now left | now right | now right]. }
      split; [|left; lia].
      intros h Hin. apply in_app_or in Hin.
      destruct Hin as [Hin|Hin]; [now left|].
      simpl in Hin. intuition discriminate.
    + rewrite Hf. unfold fst.
      cbn [activeStreams children trace sinksOpened pipes].
      split; [lia|]. split; [auto|]. split; [intros c Hc; left; now exists c|].
      split; [auto|]. split; [|left; lia].
      intros h Hin. apply in_app_or in Hin.
      destruct Hin as [Hin|Hin]; [now left|].
      simpl in Hin. intuition discriminate.
  - destruct k as [p|].
    + apply quiet_log_streams; simpl; auto.
      intros c Hc. apply in_map_iff in Hc. destruct Hc as [c0 [<- H0]].
      exists c0. split; [exact H0|]. now destruct (c_pid c0 =? p)%nat.
    + apply quiet_log_streams; simpl; auto. same_children.
  - unfold stopStream_begin.
    destruct (JsMap.has streamId (activeStreams s));
      [|apply quiet_log_streams; simpl; auto; same_children].
    destruct (JsMap.get streamId (activeStreams s)) as [sess|] eqn:Hget;
      [|apply quiet_log_streams; simpl; auto; same_children].
    apply quiet_log_streams; simpl; auto; [same_children|].
    intros h Hin. rewrite <- !app_assoc in Hin. apply in_app_or in Hin.
    destruct Hin as [Hin|Hin]; [now left|].
    simpl in Hin. destruct Hin as [H|[[= <-]|[H|[]]]]; try discriminate.
    right. left. exists streamId, sess. split; [|reflexivity].
    now apply JsMapFacts.get_In.
  - apply quiet_log_streams; simpl; auto; [|same_children].
    intros id sess Hin. now apply In_delete in Hin.
  - unfold childExit_begin.
    destruct (findChild p s) as [c|] eqn:Hfind;
      [|apply quiet_log_streams; simpl; auto; same_children].
    apply find_some in Hfind. destruct Hfind as [Hc _].
    assert (Hkept : forall c', In c' (filter (fun c0 => negb (c_pid c0 =? p)%nat)
                                             (children s)) ->
                               exists c0, In c0 (children s)
                                          /\ c_logStream c0 = c_logStream c').
    { intros c' Hin. apply filter_In in Hin. exists c'. tauto. }
    destruct (c_onExit c).
    + apply quiet_log_streams; simpl; auto.
      intros h Hin. rewrite <- !app_assoc in Hin. apply in_app_or in Hin.
      destruct Hin as [Hin|Hin]; [now left|].
      simpl in Hin. destruct Hin as [[= <-]|[H|[]]]; try discriminate.
      right. right. left. now exists c.
    + apply quiet_log_streams; simpl; auto.
  - unfold pipeEnd.
    destruct (find (samePipe p from) (pipes s)) as [pp|] eqn:Hfind;
      [|apply quiet_log_streams; simpl; auto; same_children].
    apply find_some in Hfind. destruct Hfind as [Hpp _].
    apply quiet_log_streams; simpl; auto; [same_children | |].
    + intros pp' Hin. apply filter_In in Hin. tauto.
    + intros h Hin. apply in_app_or in Hin.
      destruct Hin as [Hin|[[= <-]|[]]]; [now left|].
      right. right. right. now exists pp.
  - apply quiet_log_streams; simpl; auto; [same_children | no_new_end].
  - apply quiet_log_streams; simpl; auto; same_children.
  - apply quiet_log_streams; simpl; auto; [same_children | no_new_end].
  - apply quiet_log_streams; simpl; auto; [same_children | no_new_end].
  - apply quiet_log_streams; simpl; auto; [same_children | no_new_end].
Qed.

Lemma step_handlesBelow ev s : handlesBelow s -> handlesBelow (step env ev s).
Proof.
  intros Hk. pose proof Hk as [Ha [Hb [Hc Hd]]].
  destruct (step_log_streams ev s) as [Hle [Hreg [Hch [Hpipes [Hend Hnew]]]]].
  apply (handlesBelow_next s _ Hk Hle).
  - intros id sess Hin. destruct Hnew as [Hlt|[Hr _]].
    + destruct (Hreg _ _ Hin) as [H|H]; [now left | right; lia].
    + left. now apply Hr.
  - intros c Hin. destruct Hnew as [Hlt|[_ [Hcs _]]].
    + destruct (Hch _ Hin) as [H|H]; [now left | right; lia].
    + left. now apply Hcs.
  - intros h Hin.
    destruct (Hend _ Hin) as [H|[[id [sess [H <-]]]|[[c [H <-]]|[pp [H <-]]]]].
    + now left.
    + right. specialize (Ha _ _ H). lia.
    + right. specialize (Hb _ H). lia.
    + right. specialize (Hd _ H). lia.
  - intros pp Hin. destruct Hnew as [Hlt|[_ [_ Hps]]].
    + destruct (Hpipes _ Hin) as [H|H]; [now left | right; lia].
    + left. now apply Hps.
Qed.

Lemma reachable_handlesBelow s : reachable env s -> handlesBelow s.
Proof.
  induction 1 as [|s ev _ IH]; [|now apply step_handlesBelow].
  repeat split; simpl; intros; contradiction.
Qed.

Lemma step_abandoned h ev s : abandoned h s -> abandoned h (step env ev s).
Proof.
  intros Hj. pose proof Hj as [Hlt [Ha [Hb [Hp Hc]]]].
  destruct (step_log_streams ev s) as [Hle [Hreg [Hch [Hpipes [Hend _]]]]].
  apply (abandoned_next h s _ Hj Hle).
  - intros id sess Hin. destruct (Hreg _ _ Hin) as [H|H]; [now left | right; lia].
  - intros c Hin. destruct (Hch _ Hin) as [H|H]; [now left | right; lia].
  - intros pp Hin. destruct (Hpipes _ Hin) as [H|H]; [now left | right; lia].
  - intros h' Hin.
    destruct (Hend _ Hin) as [H|[[id [sess [H <-]]]|[[c [H <-]]|[pp [H <-]]]]].
    + now left.
    + right. now apply (Ha _ _ H).
    + right. now apply Hb.
    + right. now apply Hp.
Qed.

Lemma run_abandoned h evs s : abandoned h s -> abandoned h (run env evs s).
Proof.
  unfold run. revert s. induction evs as [|ev evs IH]; intros s Hj; simpl.
  - exact Hj.
  - now apply IH, step_abandoned.
Qed.
End LogStreams.

(** X15. [startStream] opens the log file before it builds the command, and
    its [catch] block does not end the stream. When a start answers [false],
    the log stream it opened belongs to no session and no process, and it is
    never ended, whatever the worker does afterwards. *)
Theorem log_stream_of_failed_start_is_never_ended :
  forall (env : Env) (streamId : jobid) (videoPath : string)
         (platforms : list platform) (s : state) (afterwards : list event),
    reachable env s ->
    snd (startStream env streamId videoPath platforms s) = false ->
    let s' := fst (startStream env streamId videoPath platforms s) in
    In (CreateWriteStream (sinksOpened s) (generateLogFilename env streamId s))
       (trace s')
    /\ (forall id sess, In (id, sess) (activeStreams s') ->
                        logStream sess <> sinksOpened s)
    /\ ~ In (LogEnd (sinksOpened s)) (trace (run env afterwards s')).
Proof.
  intros env streamId videoPath platforms s afterwards Hr Hret s'.
  destruct (reachable_handlesBelow env s Hr) as [Ha [Hb [Hc Hd]]].
  assert (Hs' : exists message calls,
             s' = mkState (activeStreams s) (children s)
                          (trace s ++ [CreateWriteStream (sinksOpened s)
                                         (generateLogFilename env streamId s);
                                       Query (SetError "failed" message streamId)])%list
                          calls (S (sinksOpened s)) (now s) (pipes s)).
  { destruct (startStream_begin_fails env streamId videoPath platforms s)
      as [[command [Hbuild Hspawn]]|[message [calls Hf]]].
    - exfalso.
      rewrite (startStream_spawns env streamId _ _ s _ Hbuild Hspawn) in Hret.
      discriminate.
    - exists message, calls. unfold s', startStream. rewrite Hf. reflexivity. }
  destruct Hs' as [message [calls Hs']].
  assert (Hj : abandoned (sinksOpened s) s').
  { rewrite Hs'. split; [simpl; lia|]. split; [|split; [|split]]; simpl.
    - intros id sess Hin. specialize (Ha _ _ Hin). lia.
    - intros c Hin. specialize (Hb _ Hin). lia.
    - intros pp Hin. specialize (Hd _ Hin). lia.
    - intros Hin. apply in_app_or in Hin. destruct Hin as [Hin|Hin].
      + specialize (Hc _ Hin). lia.
      + simpl in Hin. intuition discriminate. }
  split.
  { rewrite Hs'. simpl. apply in_or_app. right. now left. }
  split.
  { destruct Hj as [_ [Hj _]]. exact Hj. }
  destruct (run_abandoned env _ afterwards _ Hj) as [_ [_ [_ [_ Hnever]]]].
  exact Hnever.
Qed.

Lemma log_stream_of_failed_start_is_never_ended_witness :
  let env := Sample.env [] in
  let s := fst (startStream env "j1" "a.mp4" [Sample.youtube] initial) in
  let s' := fst (startStream env "j2" "b.mp4" [Sample.hls] s) in
  In (CreateWriteStream 1 "./logs/stream-j2-2024-01-01T00-00-00-000Z.log") (trace s')
  /\ ~ In (LogEnd 1)
         (trace (run env [StopBegin "j1"; DeleteResume "j1"; StopBegin "j2";
                          ChildExit 0 None; EndPg; QuitRedis; ExitWorker] s')).
Proof.
  intros env s s'.
  assert (Hr : reachable env s) by apply reachable_startStream, reach_initial.
  destruct (log_stream_of_failed_start_is_never_ended env "j2" "b.mp4" [Sample.hls] s
              [StopBegin "j1"; DeleteResume "j1"; StopBegin "j2";
               ChildExit 0 None; EndPg; QuitRedis; ExitWorker] Hr eq_refl)
    as [Hopen [_ Hnever]].
  split; [exact Hopen | exact Hnever].
Defined.

(* ================================================================== *)
(** ** The SIGTERM handler among the other handlers *)

Section ShutdownSchedules.
Variable env : Env.


Lemma has_delete_other k k' (m : JsMap.t session) :
  k' <> k -> JsMap.has k' (JsMap.delete k m) = JsMap.has k' m.
Proof.
  intros Hne. unfold JsMap.delete.
  induction m as [|[k0 v0] rest IH]; simpl; [reflexivity|].
  destruct (String.eqb_spec k0 k) as [->|Hk]; simpl.
  - destruct (String.eqb_spec k k'); [congruence | exact IH].
  - destruct (k0 =? k'); [reflexivity | exact IH].
Qed.





Lemma stopStream_begin_present streamId s :
  JsMap.has streamId (activeStreams s) = true ->
  exists sess,
    stopStream_begin streamId s
    = (mkState (activeStreams s) (children s)
               (trace s ++ [Kill (process sess); LogEnd (logStream sess);
                            Query (SetEnded "stopped" (now s) streamId)])%list
               (spawnCalls s) (sinksOpened s) (now s) (pipes s),
       true).
Proof.
  intros H. destruct (JsMapFacts.has_get _ _ H) as [sess Hget]. exists sess.
  unfold stopStream_begin. rewrite H, Hget. unfold emit. simpl.
  now rewrite <- !app_assoc.
Qed.










Lemma shutdownStep_Shutdown pc s :
  shutdownStep env Shutdown (pc, s) = shutdownSegment pc s.
Proof. now destruct pc. Qed.










End ShutdownSchedules.




(* ================================================================== *)
(** ** A process that ends while its start is still awaited *)

(** C7. [startStream] attaches the exit handler (line 110) only after the
    [await] of the UPDATE to ['active'] (line 104). For a process that ends
    during that [await] there is no exit reaction: [startStream("j1",
    "a.mp4", [youtube])] spawns process 0, the process ends with code 1
    before the UPDATE returns, and then the handler is attached. The log
    stream is not ended, no status and no end time are persisted for the
    end of the process (the only UPDATE is the one to ['active']), the
    registry keeps the entry of [j1], and no later exit event reaches the
    handler. *)
Theorem exit_during_start_gets_no_reaction :
  let env := Sample.env [] in
  let begun := step env (StartBegin "j1" "a.mp4" [Sample.youtube]) initial in
  let s := run env [ChildExit 0 (Some 1%Z); StartResume (AttachExit 0)] begun in
  findChild 0 begun = Some (mkChild 0 "j1" 0 false)
  /\ trace s = trace begun
  /\ queries (trace s)
     = [SetStarted "active" 2 "./logs/stream-j1-2024-01-01T00-00-00-000Z.log" "j1"]
  /\ (forall h, ~ In (LogEnd h) (trace s))
  /\ option_map process (JsMap.get "j1" (activeStreams s)) = Some 0
  /\ findChild 0 s = None
  /\ (forall code, childExit 0 code s = s).
Proof.
  intros env begun s.
  assert (Hgone : findChild 0 s = None) by (vm_compute; reflexivity).
  split; [vm_compute; reflexivity|]. split; [vm_compute; reflexivity|].
  split; [vm_compute; reflexivity|]. split.
  { intros h. vm_compute. intuition discriminate. }
  split; [vm_compute; reflexivity|]. split; [exact Hgone|].
  intros code. unfold childExit, childExit_begin. now rewrite Hgone.
Qed.

(* ================================================================== *)
(** ** The SIGTERM handler when nothing else runs *)

Section UninterruptedShutdown.
Variable env : Env.

Lemma filter_all {A : Type} (f : A -> bool) (l : list A) :
  (forall x, In x l -> f x = true) -> filter f l = l.
Proof.
  induction l as [|x l IH]; intros H; simpl; [reflexivity|].
  rewrite (H x (or_introl eq_refl)). f_equal. apply IH. intros y Hy.
  apply H. now right.
Qed.

Lemma filter_none {A : Type} (f : A -> bool) (l : list A) :
  (forall x, In x l -> f x = false) -> filter f l = [].
Proof.
  induction l as [|x l IH]; intros H; simpl; [reflexivity|].
  rewrite (H x (or_introl eq_refl)). apply IH. intros y Hy. apply H. now right.
Qed.

(** Deleting the entry just visited leaves the iterator where it is. *)
Lemma iteratorAfter_delete_visited k (m : JsMap.t session) pending :
  ~ In k pending ->
  (forall k', In k' pending -> JsMap.has k' m = true) ->
  iteratorAfter m (JsMap.delete k m) pending = pending.
Proof.
  intros Hk Hpend. unfold iteratorAfter.
  rewrite filter_all, filter_none; [apply app_nil_r | |].
  - intros k' Hin. rewrite JsMapFacts.keys_delete in Hin.
    apply filter_In in Hin. destruct Hin as [Hin _].
    apply JsMapFacts.has_In in Hin. now rewrite Hin.
  - intros k' Hin. rewrite has_delete_other; [now apply Hpend|].
    intros ->. contradiction.
Qed.

Lemma shutdownRun_app moves1 moves2 c :
  shutdownRun env (moves1 ++ moves2) c
  = shutdownRun env moves2 (shutdownRun env moves1 c).
Proof. unfold shutdownRun. apply fold_left_app. Qed.

(** Two segments of the handler per stream make the loop of [stopEach]. *)
Lemma stopEach_segments ids :
  forall s,
    NoDup ids ->
    (forall k, In k ids -> JsMap.has k (activeStreams s) = true) ->
    shutdownRun env (flat_map (fun _ => [Shutdown; Shutdown]) ids) (Iterating ids, s)
    = (Iterating [], stopEach ids s).
Proof.
  induction ids as [|k rest IH]; intros s Hnd Hpend; [reflexivity|].
  inversion Hnd as [|? ? Hnotin Hnd']; subst.
  destruct (stopStream_begin_present k s (Hpend k (or_introl eq_refl)))
    as [sess Hbegin].
  assert (Hstop : fst (stopStream k s)
                  = deleteActive k (fst (stopStream_begin k s))).
  { unfold stopStream. now rewrite Hbegin. }
  cbn [flat_map app stopEach]. unfold shutdownRun. cbn [fold_left].
  rewrite shutdownStep_Shutdown. cbn [shutdownSegment].
  rewrite Hstop, Hbegin. rewrite shutdownStep_Shutdown. cbn [shutdownSegment fst].
  unfold deleteActive at 1 2. cbn [activeStreams withActive].
  rewrite iteratorAfter_delete_visited;
    [|exact Hnotin | intros k' Hk'; apply Hpend; now right].
  apply IH; [exact Hnd'|].
  intros k' Hk'. cbn [activeStreams withActive deleteActive].
  unfold deleteActive. cbn [activeStreams withActive].
  rewrite has_delete_other; [apply Hpend; now right|].
  intros ->. contradiction.
Qed.
End UninterruptedShutdown.

(** X18. When no other handler runs in between, the segments of the SIGTERM
    handler, two for each registered stream and three for the two clients
    and the exit, make up [onSIGTERM]: the walk over the live registry
    visits the streams that were registered when SIGTERM arrived. *)
Theorem uninterrupted_shutdown_is_onSIGTERM :
  forall (env : Env) (s : state),
    NoDup (JsMap.keys (activeStreams s)) ->
    shutdownRun env
      (flat_map (fun _ => [Shutdown; Shutdown]) (JsMap.keys (activeStreams s))
         ++ [Shutdown; Shutdown; Shutdown])%list
      (onSIGTERM_begin s)
    = (Exited, onSIGTERM s).
Proof.
  intros env s Hnd. rewrite shutdownRun_app. unfold onSIGTERM_begin.
  rewrite (stopEach_segments env _ s Hnd);
    [reflexivity | intros k; apply JsMapFacts.has_In].
Qed.

Lemma uninterrupted_shutdown_is_onSIGTERM_witness :
  let env := Sample.env [] in
  let s := fst (startStream env "j2" "b.mp4" [Sample.twitch]
             (fst (startStream env "j1" "a.mp4" [Sample.youtube] initial))) in
  shutdownRun env [Shutdown; Shutdown; Shutdown; Shutdown;
                   Shutdown; Shutdown; Shutdown] (onSIGTERM_begin s)
  = (Exited, onSIGTERM s)
  /\ trace (onSIGTERM s)
     = (trace s ++ [Kill 0; LogEnd 0; Query (SetEnded "stopped" 0 "j1");
                    Kill 1; LogEnd 1; Query (SetEnded "stopped" 0 "j2");
                    PgEnd; RedisQuit; ProcessExit 0])%list.
Proof.
  intros env s.
  assert (Hkeys : JsMap.keys (activeStreams s) = ["j1"; "j2"])
    by (vm_compute; reflexivity).
  assert (Hnd : NoDup (JsMap.keys (activeStreams s))).
  { rewrite Hkeys. constructor.
    - intros [H | []]. discriminate H.
    - constructor; [intros [] | constructor]. }
  pose proof (uninterrupted_shutdown_is_onSIGTERM env s Hnd) as H.
  rewrite Hkeys in H. split; [exact H|]. vm_compute. reflexivity.
Defined.
